(** * node-osrm: the dispatch layer of [src/node_osrm.cpp]

    A shallow embedding of the binding between JavaScript callers and the
    OSRM engine: the constructor [Engine::New], the four request methods
    ([route], [locate], [nearest], [table]), and the job life cycle
    [Engine::Run] / [Engine::AsyncRun] / [Engine::AfterRun] on the libuv
    work queue.

    - JavaScript values are an inductive type; the V8 predicates and
      coercions the source calls ([IsArray], [NumberValue], [Uint32Value],
      ...) are functions on it. A coercion of an object may run user
      code that raises; the binding uses the coerced value all the same,
      and the caller gets the exception when the method returns.
    - A JavaScript number is an IEEE-754 binary64 value, [spec_float] with
      [prec = 53] and [emax = 1024]; the product with
      [COORDINATE_PRECISION] is the rounded binary64 product.
    - [static_cast<int>] of a double is the truncation where an [int]
      holds it; outside the range of [int] (and at NaN and the
      infinities) C++ defines nothing, the platform yields some [int],
      and the binding stores it and goes on.
    - A method either returns normally, throws a JavaScript exception, or
      stops where C++ defines no behaviour ([Fault]).
    - The event loop is explicit state: the engines with their [refs_]
      counters, the batons queued for the thread pool, the batons whose
      work is done, and the trace of callback invocations. *)

From Stdlib Require Import ZArith Bool List String Ascii Lia.
From Stdlib Require Import Floats.SpecFloat.
From stdpp Require Import gmap strings list.

Local Open Scope Z_scope.
Set Warnings "-register-all".

(* ===================================================================== *)
(** ** IEEE-754 binary64 and the C++ integer conversions                 *)
(* ===================================================================== *)

Module Double.

Abbreviation double := spec_float (only parsing).

Definition prec : Z := 53.
Definition emax : Z := 1024.

(** [x * y] on doubles: round-to-nearest-even binary64 product. *)
Definition mul (x y : double) : double := SFmul prec emax x y.

(** The double nearest to an integer. *)
Definition of_Z (n : Z) : double := binary_normalize prec emax n 0 false.

Definition NaN : double := S754_nan.
Definition pos_zero : double := S754_zero false.

Definition is_finite (x : double) : bool :=
  match x with
  | S754_zero _ | S754_finite _ _ _ => true
  | S754_infinity _ | S754_nan => false
  end.

(** The integral part of a finite double, fractional part discarded.
    A finite double is [(-1)^s * m * 2^e]; for [e < 0] the shift drops
    the low [-e] bits of the magnitude. *)
Definition truncate (x : double) : option Z :=
  match x with
  | S754_zero _ => Some 0
  | S754_finite s m e => Some (cond_Zopp s (Z.shiftl (Zpos m) e))
  | S754_infinity _ | S754_nan => None
  end.

(** The exact value of a finite double as a fraction [num / den],
    [den > 0]; used to state what rounding toward zero means. *)
Definition num (x : double) : Z :=
  match x with
  | S754_finite s m e => cond_Zopp s (Zpos m * 2 ^ Z.max e 0)
  | _ => 0
  end.

Definition den (x : double) : Z :=
  match x with
  | S754_finite _ _ e => 2 ^ Z.max (- e) 0
  | _ => 1
  end.

(** Rounding toward zero, as the specification words it: the quotient
    of the exact value's numerator by its denominator, rounded toward
    zero ([Z.quot]). *)
Definition round_toward_zero (x : double) : Z := Z.quot (num x) (den x).

Definition INT_MIN : Z := - 2 ^ 31.
Definition INT_MAX : Z := 2 ^ 31 - 1.

Definition int_range (z : Z) : bool := (INT_MIN <=? z) && (z <=? INT_MAX).

(** [static_cast<int>(x)] as C++ defines it: truncation; [None] when
    the truncated value is not representable in [int] and the standard
    defines nothing. What the compiled binding stores in that case is
    [Engine.to_int]. *)
Definition static_cast_int (x : double) : option Z :=
  match truncate x with
  | Some z => if int_range z then Some z else None
  | None => None
  end.

(** Two's-complement wrap of an integer to [w] bits, signed. *)
Definition wrap_signed (w : Z) (z : Z) : Z :=
  (z + 2 ^ (w - 1)) mod 2 ^ w - 2 ^ (w - 1).

(** [static_cast<short>] of an [int32_t]. *)
Definition static_cast_short (z : Z) : Z := wrap_signed 16 z.

(** [static_cast<unsigned>] of a [uint32_t]: both are 32 bits wide. *)
Definition static_cast_unsigned (z : Z) : Z := z mod 2 ^ 32.

End Double.

(* ===================================================================== *)
(** ** JavaScript values as the binding sees them                        *)
(* ===================================================================== *)

(** Strings are the UTF-8 bytes of the JavaScript string. Functions are
    identified by a handle. [VError msg] is the object that [NanError]
    builds around a message. *)
Inductive Value : Type :=
| VUndefined
| VNull
| VBoolean (b : bool)
| VNumber (x : spec_float)
| VString (s : string)
| VArray (elems : list Value)
| VObject (props : list (string * Value))
| VFunction (f : nat)
| VError (msg : string).

Inductive Exception : Type :=
| Error (msg : string)
| TypeError (msg : string).

(** The result of running a piece of the binding: a value, a pending
    JavaScript exception, or a stop where C++ defines no behaviour (an
    empty handle dereferenced, [Unwrap] of an object that wraps no
    engine, a failed assertion). *)
Inductive Completion (A : Type) : Type :=
| Normal (a : A)
| Throw (e : Exception)
| Fault.
Arguments Normal {A} a.
Arguments Throw {A} e.
Arguments Fault {A}.

#[global] Instance Completion_ret : MRet Completion := fun _ a => Normal a.
#[global] Instance Completion_bind : MBind Completion := fun _ _ k c =>
  match c with
  | Normal a => k a
  | Throw e => Throw e
  | Fault => Fault
  end.

(** A step on which the binding goes on only when it yields something. *)
Definition defined {A} (o : option A) : Completion A :=
  match o with Some a => Normal a | None => Fault end.

(** A C string stops at the first NUL: [std::string::c_str()] read by
    [strlen], and a [char*] turned into a [std::string]. *)
Fixpoint c_str (s : string) : string :=
  match s with
  | EmptyString => EmptyString
  | String c r => if Ascii.eqb c Ascii.zero then EmptyString else String c (c_str r)
  end.

(** Text: a string with no NUL character in it. *)
Fixpoint textual (s : string) : bool :=
  match s with
  | EmptyString => true
  | String c r => negb (Ascii.eqb c Ascii.zero) && textual r
  end.

Module V8.

Definition IsString (v : Value) : bool :=
  match v with VString _ => true | _ => false end.

Definition IsNull (v : Value) : bool :=
  match v with VNull => true | _ => false end.

Definition IsUndefined (v : Value) : bool :=
  match v with VUndefined => true | _ => false end.

Definition IsArray (v : Value) : bool :=
  match v with VArray _ => true | _ => false end.

Definition IsFunction (v : Value) : bool :=
  match v with VFunction _ => true | _ => false end.

(** Arrays, functions and error objects are objects too. *)
Definition IsObject (v : Value) : bool :=
  match v with
  | VArray _ | VObject _ | VFunction _ | VError _ => true
  | _ => false
  end.

(** [Value::ToObject]: an object is itself, a primitive is wrapped (the
    wrapper has none of the request's properties), and [null] and
    [undefined] give the empty handle. *)
Definition ToObject (v : Value) : option Value :=
  match v with
  | VUndefined | VNull => None
  | VBoolean _ | VNumber _ | VString _ => Some (VObject [])
  | _ => Some v
  end.

Fixpoint lookup_prop (k : string) (props : list (string * Value)) : option Value :=
  match props with
  | [] => None
  | (k', v) :: rest => if String.eqb k k' then Some v else lookup_prop k rest
  end.

(** [Object::Has] and [Object::Get] by property name. *)
Definition Has (obj : Value) (k : string) : bool :=
  match obj with
  | VObject props => bool_decide (is_Some (lookup_prop k props))
  | _ => false
  end.

Definition Get (obj : Value) (k : string) : Value :=
  match obj with
  | VObject props => default VUndefined (lookup_prop k props)
  | _ => VUndefined
  end.

(** [Array::Length] and [Array::Get(uint32_t)]. *)
Definition Length (arr : Value) : nat :=
  match arr with VArray l => length l | _ => 0%nat end.

Definition GetIndex (arr : Value) (i : nat) : Value :=
  match arr with
  | VArray l => default VUndefined (l !! i)
  | _ => VUndefined
  end.

(** [args[i]]: [undefined] past the end. *)
Definition arg (args : list Value) (i : nat) : Value :=
  default VUndefined (args !! i).

(** What V8 does outside this repository: parsing a string as a number,
    converting an object to a primitive, printing a non-string, and
    whether a callback raises when it is called. Converting an object
    to a number runs its [valueOf] or [toString], which is user code
    and may raise: [ObjectToNumber_throws] says whether it does, and
    [ObjectToNumber] is the double that V8 hands back to the binding in
    either case. *)
Class Runtime : Type := {
  StringToNumber : string -> spec_float;
  ObjectToNumber : Value -> spec_float;
  ObjectToNumber_throws : Value -> bool;
  NonStringToString : Value -> string;
  callback_throws : nat -> list Value -> bool
}.

Section Coercions.
Context `{Runtime}.

(** [Value::NumberValue] (ECMAScript ToNumber): the double the
    binding gets. The binding uses it as it is; it never tests whether
    the conversion raised. *)
Definition NumberValue (v : Value) : spec_float :=
  match v with
  | VUndefined => Double.NaN
  | VNull => Double.pos_zero
  | VBoolean b => if b then Double.of_Z 1 else Double.pos_zero
  | VNumber x => x
  | VString s => StringToNumber s
  | _ => ObjectToNumber v
  end.


(** [Value::BooleanValue] (ECMAScript ToBoolean). *)
Definition BooleanValue (v : Value) : bool :=
  match v with
  | VUndefined | VNull => false
  | VBoolean b => b
  | VNumber x =>
      match x with
      | S754_zero _ | S754_nan => false
      | _ => true
      end
  | VString s => negb (String.eqb s EmptyString)
  | _ => true
  end.

(** The integer that ToUint32 and ToInt32 reduce: NaN and the
    infinities count as 0, everything else is truncated. *)
Definition ToInteger (x : spec_float) : Z := default 0 (Double.truncate x).

Definition Uint32Value (v : Value) : Z := ToInteger (NumberValue v) mod 2 ^ 32.

Definition Int32Value (v : Value) : Z := Double.wrap_signed 32 (ToInteger (NumberValue v)).

(** [*String::Utf8Value(v)] assigned to a [std::string]: the UTF-8
    text of ToString(v), read as a C string. *)
Definition Utf8Value (v : Value) : string :=
  c_str (match v with VString s => s | _ => NonStringToString v end).

End Coercions.

End V8.

(* ===================================================================== *)
(** ** The OSRM library as the binding uses it                           *)
(* ===================================================================== *)

Definition FixedPointCoordinate : Type := (Z * Z)%type.

(** The fields of [RouteParameters] that the binding reads or writes. *)
Record RouteParameters : Type := {
  zoom_level : Z;
  print_instructions : bool;
  alternate_route : bool;
  geometry : bool;
  compression : bool;
  check_sum : Z;
  service : string;
  output_format : string;
  jsonp_parameter : string;
  language : string;
  hints : list string;
  coordinates : list FixedPointCoordinate
}.

Definition set_zoom_level (v : Z) (p : RouteParameters) : RouteParameters :=
  {| zoom_level := v; print_instructions := print_instructions p;
     alternate_route := alternate_route p; geometry := geometry p;
     compression := compression p; check_sum := check_sum p;
     service := service p; output_format := output_format p;
     jsonp_parameter := jsonp_parameter p; language := language p;
     hints := hints p; coordinates := coordinates p |}.

Definition set_print_instructions (v : bool) (p : RouteParameters) : RouteParameters :=
  {| zoom_level := zoom_level p; print_instructions := v;
     alternate_route := alternate_route p; geometry := geometry p;
     compression := compression p; check_sum := check_sum p;
     service := service p; output_format := output_format p;
     jsonp_parameter := jsonp_parameter p; language := language p;
     hints := hints p; coordinates := coordinates p |}.

Definition set_alternate_route (v : bool) (p : RouteParameters) : RouteParameters :=
  {| zoom_level := zoom_level p; print_instructions := print_instructions p;
     alternate_route := v; geometry := geometry p;
     compression := compression p; check_sum := check_sum p;
     service := service p; output_format := output_format p;
     jsonp_parameter := jsonp_parameter p; language := language p;
     hints := hints p; coordinates := coordinates p |}.

Definition set_geometry (v : bool) (p : RouteParameters) : RouteParameters :=
  {| zoom_level := zoom_level p; print_instructions := print_instructions p;
     alternate_route := alternate_route p; geometry := v;
     compression := compression p; check_sum := check_sum p;
     service := service p; output_format := output_format p;
     jsonp_parameter := jsonp_parameter p; language := language p;
     hints := hints p; coordinates := coordinates p |}.

Definition set_compression (v : bool) (p : RouteParameters) : RouteParameters :=
  {| zoom_level := zoom_level p; print_instructions := print_instructions p;
     alternate_route := alternate_route p; geometry := geometry p;
     compression := v; check_sum := check_sum p;
     service := service p; output_format := output_format p;
     jsonp_parameter := jsonp_parameter p; language := language p;
     hints := hints p; coordinates := coordinates p |}.

Definition set_check_sum (v : Z) (p : RouteParameters) : RouteParameters :=
  {| zoom_level := zoom_level p; print_instructions := print_instructions p;
     alternate_route := alternate_route p; geometry := geometry p;
     compression := compression p; check_sum := v;
     service := service p; output_format := output_format p;
     jsonp_parameter := jsonp_parameter p; language := language p;
     hints := hints p; coordinates := coordinates p |}.

Definition set_service (v : string) (p : RouteParameters) : RouteParameters :=
  {| zoom_level := zoom_level p; print_instructions := print_instructions p;
     alternate_route := alternate_route p; geometry := geometry p;
     compression := compression p; check_sum := check_sum p;
     service := v; output_format := output_format p;
     jsonp_parameter := jsonp_parameter p; language := language p;
     hints := hints p; coordinates := coordinates p |}.

Definition set_output_format (v : string) (p : RouteParameters) : RouteParameters :=
  {| zoom_level := zoom_level p; print_instructions := print_instructions p;
     alternate_route := alternate_route p; geometry := geometry p;
     compression := compression p; check_sum := check_sum p;
     service := service p; output_format := v;
     jsonp_parameter := jsonp_parameter p; language := language p;
     hints := hints p; coordinates := coordinates p |}.

Definition set_jsonp_parameter (v : string) (p : RouteParameters) : RouteParameters :=
  {| zoom_level := zoom_level p; print_instructions := print_instructions p;
     alternate_route := alternate_route p; geometry := geometry p;
     compression := compression p; check_sum := check_sum p;
     service := service p; output_format := output_format p;
     jsonp_parameter := v; language := language p;
     hints := hints p; coordinates := coordinates p |}.

Definition set_language (v : string) (p : RouteParameters) : RouteParameters :=
  {| zoom_level := zoom_level p; print_instructions := print_instructions p;
     alternate_route := alternate_route p; geometry := geometry p;
     compression := compression p; check_sum := check_sum p;
     service := service p; output_format := output_format p;
     jsonp_parameter := jsonp_parameter p; language := v;
     hints := hints p; coordinates := coordinates p |}.

(** [params->hints.push_back(h)] *)
Definition hints_push_back (h : string) (p : RouteParameters) : RouteParameters :=
  {| zoom_level := zoom_level p; print_instructions := print_instructions p;
     alternate_route := alternate_route p; geometry := geometry p;
     compression := compression p; check_sum := check_sum p;
     service := service p; output_format := output_format p;
     jsonp_parameter := jsonp_parameter p; language := language p;
     hints := hints p ++ [h]; coordinates := coordinates p |}.

(** [params->coordinates.emplace_back(lat, lon)] *)
Definition coordinates_emplace_back (c : FixedPointCoordinate) (p : RouteParameters)
  : RouteParameters :=
  {| zoom_level := zoom_level p; print_instructions := print_instructions p;
     alternate_route := alternate_route p; geometry := geometry p;
     compression := compression p; check_sum := check_sum p;
     service := service p; output_format := output_format p;
     jsonp_parameter := jsonp_parameter p; language := language p;
     hints := hints p; coordinates := coordinates p ++ [c] |}.

(** What [OSRM::RunQuery] leaves behind: the reply's content, or a
    [std::exception] whose [what()] is a C string. *)
Inductive QueryOutcome : Type :=
| Reply (content : string)
| Raise (what : string).

(** The parts of libosrm that are not in this repository. The scalar
    fields of [RouteParameters_ctor] are whatever the library's default
    constructor sets; a default-constructed object has empty vectors. *)
Class Library : Type := {
  COORDINATE_PRECISION : spec_float;
  RouteParameters_ctor : RouteParameters;
  OSRM : Type;
  OSRM_ctor : gmap string string -> bool -> OSRM + string;
  RunQuery : OSRM -> RouteParameters -> QueryOutcome
}.

(* ===================================================================== *)
(** ** The C++ implementation                                            *)
(* ===================================================================== *)

(** [static_cast<int>] of a double whose truncation no [int] holds
    (NaN and the infinities included) is not defined by C++, and the
    binding does not test for it: the compiled conversion yields some
    32 bits, and the binding goes on with them. [unrepresentable x] is
    what it yields for [x]; x86's [cvttsd2si] yields [0x80000000], which
    is [INT_MIN], for every such [x]. *)
Class Platform : Type := {
  unrepresentable : spec_float -> Z
}.

(* ===================================================================== *)
(** ** The binding: [class Engine]                                       *)
(* ===================================================================== *)

Module Engine.

Import V8.

Section Binding.
Context `{Runtime} `{Library} {cxx : Platform}.

(** *** State *)

(** A wrapped [Engine]: the engine it owns and [ObjectWrap::refs_]. The
    counter is an [int]; it counts batons that exist at the same time,
    and memory runs out long before it could wrap. *)
Record Wrapped : Type := {
  this_ : OSRM;
  refs_ : Z
}.

(** [struct RunQueryBaton]. [request] identifies the [uv_work_t], and
    with it the job; [machine] is the handle of the engine; [cb] is
    the handle of the persistent callback. *)
Record RunQueryBaton : Type := {
  request : nat;
  machine : nat;
  result : string;
  params : RouteParameters;
  cb : nat;
  error : bool
}.

(** What the JavaScript side observes on the loop thread. *)
Inductive Event : Type :=
| Invoke (job : nat) (fn : nat) (argv : list Value)
| FatalException (job : nat).

(** The process as far as the binding is concerned: the wrapped
    engines by handle, the work handed to [uv_queue_work] and not yet
    run, the work that has run and waits for its after-work callback,
    the events so far, and the next free handles. *)
Record World : Type := {
  engines : gmap nat Wrapped;
  work_queue : list RunQueryBaton;
  done_queue : list RunQueryBaton;
  trace : list Event;
  next_request : nat;
  next_engine : nat
}.

Definition with_engines (m : gmap nat Wrapped) (w : World) : World :=
  {| engines := m; work_queue := work_queue w; done_queue := done_queue w;
     trace := trace w; next_request := next_request w;
     next_engine := next_engine w |}.

Definition with_work_queue (q : list RunQueryBaton) (w : World) : World :=
  {| engines := engines w; work_queue := q; done_queue := done_queue w;
     trace := trace w; next_request := next_request w;
     next_engine := next_engine w |}.

Definition with_done_queue (q : list RunQueryBaton) (w : World) : World :=
  {| engines := engines w; work_queue := work_queue w; done_queue := q;
     trace := trace w; next_request := next_request w;
     next_engine := next_engine w |}.

Definition log (ev : Event) (w : World) : World :=
  {| engines := engines w; work_queue := work_queue w;
     done_queue := done_queue w; trace := trace w ++ [ev];
     next_request := next_request w; next_engine := next_engine w |}.

Definition initial : World :=
  {| engines := ∅; work_queue := []; done_queue := []; trace := [];
     next_request := 0; next_engine := 0 |}.

(** *** [ObjectWrap::Ref] and [ObjectWrap::Unref] *)

Definition Ref (e : nat) (w : World) : World :=
  with_engines
    (alter (fun o => {| this_ := this_ o; refs_ := refs_ o + 1 |}) e (engines w)) w.

(** [Unref] asserts [refs_ > 0] before it decrements. *)
Definition Unref (e : nat) (w : World) : Completion World :=
  match engines w !! e with
  | Some o =>
      if 0 <? refs_ o
      then Normal (with_engines
                     (<[e := {| this_ := this_ o; refs_ := refs_ o - 1 |}]> (engines w)) w)
      else Fault
  | None => Fault
  end.

(** *** [Engine::New] *)

(** [ObjectWrap::Wrap]: the new engine gets a fresh handle and
    starts with [refs_ = 0]. *)
Definition Wrap (osrm : OSRM) (w : World) : World :=
  {| engines := <[next_engine w := {| this_ := osrm; refs_ := 0 |}]> (engines w);
     work_queue := work_queue w; done_queue := done_queue w;
     trace := trace w; next_request := next_request w;
     next_engine := S (next_engine w) |}.

(** [new Engine(paths, use_shared_memory)] inside the [try] block:
    the handle of the wrapped engine, or the [TypeError] made from
    the [what()] of the exception the library raised. *)
Definition construct (paths : gmap string string) (use_shared_memory : bool)
  (w : World) : World * Completion nat :=
  match OSRM_ctor paths use_shared_memory with
  | inl osrm => (Wrap osrm w, Normal (next_engine w))
  | inr what => (w, Throw (TypeError (c_str what)))
  end.

Definition New (w : World) (IsConstructCall : bool) (args : list Value)
  : World * Completion nat :=
  if negb IsConstructCall then
    (w, Throw (TypeError
       "Cannot call constructor as function, you need to use 'new' keyword"))
  else
    let paths : Completion (gmap string string) :=
      if (length args =? 1)%nat then
        if negb (IsString (arg args 0)) then
          Throw (Error "OSRM base path must be a string")
        else Normal (<["base" := Utf8Value (arg args 0)]> ∅)
      else Normal ∅ in
    match paths with
    | Normal paths => construct paths (length args =? 0)%nat w
    | Throw e => (w, Throw e)
    | Fault => (w, Fault)
    end.

(** *** Building the request *)

(** [make_unique<RouteParameters>()] *)
Definition new_RouteParameters : RouteParameters :=
  {| zoom_level := zoom_level RouteParameters_ctor;
     print_instructions := print_instructions RouteParameters_ctor;
     alternate_route := alternate_route RouteParameters_ctor;
     geometry := geometry RouteParameters_ctor;
     compression := compression RouteParameters_ctor;
     check_sum := check_sum RouteParameters_ctor;
     service := service RouteParameters_ctor;
     output_format := output_format RouteParameters_ctor;
     jsonp_parameter := jsonp_parameter RouteParameters_ctor;
     language := language RouteParameters_ctor;
     hints := [];
     coordinates := [] |}.

(** [static_cast<int>(x)] as the compiled binding performs it: the
    truncation where an [int] holds it, and elsewhere the 32 bits of
    the platform, read as an [int]. It never stops the method. *)
Definition to_int (x : spec_float) : Z :=
  match Double.static_cast_int x with
  | Some z => z
  | None => Double.wrap_signed 32 (unrepresentable x)
  end.

(** [v->NumberValue() * COORDINATE_PRECISION] converted as far as C++
    defines the conversion. *)
Definition scale (v : Value) : option Z :=
  Double.static_cast_int (Double.mul (NumberValue v) COORDINATE_PRECISION).

(** [static_cast<int>(v->NumberValue() * COORDINATE_PRECISION)], the
    [int] that is stored. *)
Definition scaled (v : Value) : Z :=
  to_int (Double.mul (NumberValue v) COORDINATE_PRECISION).

(** The pair pushed by [coordinates.emplace_back]. *)
Definition scale_pair (coordinate_pair : Value) : FixedPointCoordinate :=
  (scaled (GetIndex coordinate_pair 0), scaled (GetIndex coordinate_pair 1)).

(** The loop over [coordinates_array] in [route] and [table]; the
    argument is what remains of the array. *)
Fixpoint coordinates_loop (rest : list Value) (params : RouteParameters)
  : Completion RouteParameters :=
  match rest with
  | [] => Normal params
  | coordinate :: rest =>
      if negb (IsArray coordinate) then
        Throw (Error "coordinates must be an array of (lat/long) pairs")
      else if negb (Length coordinate =? 2)%nat then
        Throw (Error "coordinates must be an array of (lat/long) pairs")
      else
        coordinates_loop rest
          (coordinates_emplace_back (scale_pair coordinate) params)
  end.

(** The loop over [hints_array] in [route]. *)
Fixpoint hints_loop (rest : list Value) (params : RouteParameters)
  : Completion RouteParameters :=
  match rest with
  | [] => Normal params
  | hint :: rest =>
      if IsString hint then
        hints_loop rest (hints_push_back (Utf8Value hint) params)
      else if IsNull hint then
        hints_loop rest (hints_push_back "" params)
      else
        Throw (Error "hint must be null or string")
  end.

Definition elements (arr : Value) : list Value :=
  match arr with VArray l => l | _ => [] end.

(** [route], lines 125-136: the defaults. *)
Definition route_defaults (params : RouteParameters) : RouteParameters :=
  set_language ""
    (set_jsonp_parameter ""
      (set_output_format "json"
        (set_service "viaroute"
          (set_check_sum 0
            (set_compression true
              (set_geometry true
                (set_alternate_route true
                  (set_print_instructions false
                    (set_zoom_level 18 params))))))))).

(** [route], lines 173-191: the optional scalar fields. *)
Definition route_options (obj : Value) (params : RouteParameters) : RouteParameters :=
  let params :=
    if Has obj "alternateRoute"
    then set_alternate_route (BooleanValue (Get obj "alternateRoute")) params
    else params in
  let params :=
    if Has obj "checksum"
    then set_check_sum (Double.static_cast_unsigned (Uint32Value (Get obj "checksum"))) params
    else params in
  let params :=
    if Has obj "zoomLevel"
    then set_zoom_level (Double.static_cast_short (Int32Value (Get obj "zoomLevel"))) params
    else params in
  let params :=
    if Has obj "printInstructions"
    then set_print_instructions (BooleanValue (Get obj "printInstructions")) params
    else params in
  if Has obj "jsonpParameter"
  then set_jsonp_parameter (Utf8Value (Get obj "jsonpParameter")) params
  else params.

(** [route], lines 193-213: the hints. *)
Definition route_hints (obj : Value) (params : RouteParameters)
  : Completion RouteParameters :=
  if Has obj "hints" then
    let hints := Get obj "hints" in
    if negb (IsArray hints) then
      Throw (Error "hints must be an array of strings/null")
    else hints_loop (elements hints) params
  else Normal params.

(** [route], lines 138-171: the coordinates. *)
Definition route_coordinates (obj : Value) (params : RouteParameters)
  : Completion RouteParameters :=
  if negb (Has obj "coordinates") then
    Throw (Error "must provide a coordinates property")
  else
    let coordinates := Get obj "coordinates" in
    if negb (IsArray coordinates) then
      Throw (Error "coordinates must be an array of (lat/long) pairs")
    else if (Length coordinates <? 2)%nat then
      Throw (Error "at least two coordinates must be provided")
    else coordinates_loop (elements coordinates) params.

(** [route] up to the call of [Run]. *)
Definition route_parameters (args : list Value) : Completion RouteParameters :=
  if (length args <? 2)%nat then Throw (TypeError "two arguments required")
  else if negb (IsObject (arg args 0)) then Throw (TypeError "two arguments required")
  else
    obj ← defined (ToObject (arg args 0));
    if IsNull obj || IsUndefined obj then
      Throw (Error "first arg must be an object")
    else
      params ← route_coordinates obj (route_defaults new_RouteParameters);
      route_hints obj (route_options obj params).

(** [locate] and [nearest] up to the call of [Run]; they differ in the
    service name only. *)
Definition point_parameters (service_name : string) (args : list Value)
  : Completion RouteParameters :=
  if (length args <? 2)%nat then Throw (TypeError "two arguments required")
  else
    let coordinate := arg args 0 in
    if negb (IsArray coordinate) then
      Throw (Error "first argument must be an array of lat, long")
    else if negb (Length coordinate =? 2)%nat then
      Throw (Error "first argument must be an array of lat, long")
    else
      let params := set_service service_name new_RouteParameters in
      Normal (coordinates_emplace_back (scale_pair coordinate) params).

Definition locate_parameters : list Value -> Completion RouteParameters :=
  point_parameters "locate".

Definition nearest_parameters : list Value -> Completion RouteParameters :=
  point_parameters "nearest".

(** [table] up to the call of [Run]. The first argument is converted
    with [ToObject] without an [IsObject] test before it; on [null]
    and [undefined] the handle is empty and [obj->IsNull()]
    dereferences it. *)
Definition table_parameters (args : list Value) : Completion RouteParameters :=
  if (length args <? 2)%nat then Throw (TypeError "two arguments required")
  else
    obj ← defined (ToObject (arg args 0));
    if IsNull obj || IsUndefined obj then
      Throw (Error "first arg must be an object")
    else
      let coordinates := Get obj "coordinates" in
      if negb (IsArray coordinates) then
        Throw (Error "coordinates must be an array of (lat/long) pairs")
      else if (Length coordinates <? 2)%nat then
        Throw (Error "at least two coordinates must be provided")
      else
        let params := set_service "table" new_RouteParameters in
        coordinates_loop (elements coordinates) params.

(** *** [Engine::Run], [Engine::AsyncRun], [Engine::AfterRun] *)

(** [Run]: the callback test, the new baton, [uv_queue_work], [Ref].
    [ObjectWrap::Unwrap] needs [this] to wrap an engine. *)
Definition Run (w : World) (this : nat) (args : list Value)
  (params : RouteParameters) : World * Completion unit :=
  let callback := arg args (length args - 1) in
  match callback with
  | VFunction fn =>
      match engines w !! this with
      | Some _ =>
          let closure :=
            {| request := next_request w; machine := this; result := "";
               params := params; cb := fn; error := false |} in
          let queued :=
            {| engines := engines w;
               work_queue := work_queue w ++ [closure];
               done_queue := done_queue w; trace := trace w;
               next_request := S (next_request w);
               next_engine := next_engine w |} in
          (Ref this queued, Normal ())
      | None => (w, Fault)
      end
  | _ => (w, Throw (TypeError "last argument must be a callback function"))
  end.

(** [AsyncRun], on a worker thread: the query, its reply or the
    message of the exception it raised. *)
Definition AsyncRun (w : World) (closure : RunQueryBaton)
  : Completion RunQueryBaton :=
  match engines w !! machine closure with
  | Some o =>
      match RunQuery (this_ o) (params closure) with
      | Reply content =>
          Normal {| request := request closure; machine := machine closure;
                    result := content; params := params closure;
                    cb := cb closure; error := error closure |}
      | Raise what =>
          Normal {| request := request closure; machine := machine closure;
                    result := c_str what; params := params closure;
                    cb := cb closure; error := true |}
      end
  | None => Fault
  end.

(** The arguments [AfterRun] passes to the callback. *)
Definition callback_argv (closure : RunQueryBaton) : list Value :=
  if error closure
  then [VError (c_str (result closure))]
  else [VNull; VString (c_str (result closure))].

(** [AfterRun], on the loop thread: the callback, the report of an
    exception it raised, [Unref]. *)
Definition AfterRun (w : World) (closure : RunQueryBaton) : Completion World :=
  let argv := callback_argv closure in
  let w := log (Invoke (request closure) (cb closure) argv) w in
  let w :=
    if callback_throws (cb closure) argv
    then log (FatalException (request closure)) w
    else w in
  Unref (machine closure) w.

(** *** The four methods *)

Inductive Operation : Type := route | locate | nearest | table.

Definition build (op : Operation) : list Value -> Completion RouteParameters :=
  match op with
  | route => route_parameters
  | locate => locate_parameters
  | nearest => nearest_parameters
  | table => table_parameters
  end.

(** Each method builds its parameters and ends in [Run]. *)
Definition method (op : Operation) (w : World) (this : nat) (args : list Value)
  : World * Completion unit :=
  match build op args with
  | Normal params => Run w this args params
  | Throw e => (w, Throw e)
  | Fault => (w, Fault)
  end.

(** *** The libuv work queue *)

(** A worker thread takes the [i]-th queued request, runs
    [AsyncRun], and hands it to the loop. *)
Definition run_work (i : nat) (w : World) : Completion World :=
  closure ← defined (work_queue w !! i);
  closure ← AsyncRun w closure;
  mret (with_done_queue (done_queue w ++ [closure])
          (with_work_queue (delete i (work_queue w)) w)).

(** The loop takes the [i]-th finished request and runs [AfterRun]. *)
Definition run_after (i : nat) (w : World) : Completion World :=
  closure ← defined (done_queue w !! i);
  AfterRun (with_done_queue (delete i (done_queue w)) w) closure.

(** What can happen next: a worker or the loop makes progress, or
    JavaScript calls into the binding. *)
Inductive Action : Type :=
| Work (i : nat)
| After (i : nat)
| Construct (IsConstructCall : bool) (args : list Value)
| Call (op : Operation) (this : nat) (args : list Value).

Definition perform (a : Action) (w : World) : Completion World :=
  match a with
  | Work i => run_work i w
  | After i => run_after i w
  | Construct c args => Normal (New w c args).1
  | Call op this args =>
      match method op w this args with
      | (w', Fault) => Fault
      | (w', _) => Normal w'
      end
  end.

Fixpoint perform_all (l : list Action) (w : World) : Completion World :=
  match l with
  | [] => Normal w
  | a :: l => w ← perform a w; perform_all l w
  end.

(** A scheduler that lets the loop finish everything in flight:
    after-work callbacks first, then queued work. *)
Fixpoint run_loop (fuel : nat) (w : World) : Completion World :=
  match fuel with
  | O => Normal w
  | S fuel =>
      match done_queue w, work_queue w with
      | _ :: _, _ => w ← run_after 0 w; run_loop fuel w
      | [], _ :: _ => w ← run_work 0 w; run_loop fuel w
      | [], [] => Normal w
      end
  end.

(** *** Observations *)

Definition in_flight (w : World) : list RunQueryBaton :=
  work_queue w ++ done_queue w.

Definition quiescent (w : World) : Prop := in_flight w = [].

(** The jobs in flight: the request and the engine of each baton. *)
Definition job_of (closure : RunQueryBaton) : nat * nat :=
  (request closure, machine closure).

Definition jobs (w : World) : list (nat * nat) := job_of <$> in_flight w.

(** What a baton keeps from submission to completion: its request, its
    engine, the parameters and the callback. *)
Definition ticket (closure : RunQueryBaton) : nat * nat * RouteParameters * nat :=
  (request closure, machine closure, params closure, cb closure).

Definition tickets (w : World) : list (nat * nat * RouteParameters * nat) :=
  ticket <$> in_flight w.

Definition pending (j : nat) (w : World) : Prop := j ∈ (jobs w).*1.

(** How often the callback of job [j] has been invoked. *)
Fixpoint invocations (j : nat) (t : list Event) : nat :=
  match t with
  | [] => 0
  | Invoke j' _ _ :: t => (if decide (j' = j) then 1 else 0) + invocations j t
  | FatalException _ :: t => invocations j t
  end.

Definition refs_of (w : World) (e : nat) : Z :=
  match engines w !! e with Some o => refs_ o | None => 0 end.

(** The hint that a string or [null] entry of the hints array
    contributes. *)
Definition hint_of (hint : Value) : string :=
  if IsString hint then Utf8Value hint else "".

(** A hints entry that [route] accepts. *)
Definition acceptable_hint (hint : Value) : Prop :=
  IsString hint = true \/ IsNull hint = true.

(** The fields that the loops over coordinates and hints leave alone. *)
Definition same_options (p q : RouteParameters) : Prop :=
  zoom_level p = zoom_level q /\ print_instructions p = print_instructions q /\
  alternate_route p = alternate_route q /\ geometry p = geometry q /\
  compression p = compression q /\ check_sum p = check_sum q /\
  service p = service q /\ output_format p = output_format q /\
  jsonp_parameter p = jsonp_parameter q /\ language p = language q.

(** An entry of a coordinates array that is not a two-element array. *)
Definition malformed (coordinate : Value) : Prop :=
  IsArray coordinate = false \/ Length coordinate <> 2%nat.

(** The number of jobs in flight on engine [e]. *)
Definition on_engine (e : nat) (l : list (nat * nat)) : Z :=
  Z.of_nat (length (filter (fun j => j.2 = e) l)).

Definition in_flight_on (e : nat) (w : World) : Z := on_engine e (jobs w).

(** [w'] has the engines of [w], with [refs_] of engine [e] moved
    by [d]. *)
Definition bump (d : Z) (o : Wrapped) : Wrapped :=
  {| this_ := this_ o; refs_ := refs_ o + d |}.

Definition refs_moved (e : nat) (d : Z) (w w' : World) : Prop :=
  forall e', engines w' !! e' =
             if decide (e' = e) then bump d <$> engines w !! e' else engines w !! e'.

(** The references on engine [e] that no job in flight accounts for. *)
Definition idle (e : nat) (w : World) : Z := refs_of w e - in_flight_on e w.

(** The engine behind a handle. *)
Definition engine_of (w : World) (e : nat) : option OSRM :=
  this_ <$> engines w !! e.

(** A finished baton carries what the query on its engine gave. *)
Definition answered (osrm : OSRM) (closure : RunQueryBaton) : Prop :=
  match RunQuery osrm (params closure) with
  | Reply content => error closure = false /\ result closure = content
  | Raise what => error closure = true /\ result closure = c_str what
  end.

(** What holds of every world the binding can be in. *)
Record consistent (w : World) : Prop := {
  c_nodup : NoDup (jobs w).*1;
  c_bound : forall j, pending j w -> (j < next_request w)%nat;
  c_alive : forall j e, (j, e) ∈ jobs w -> is_Some (engines w !! e);
  c_fresh : forall e, is_Some (engines w !! e) -> (e < next_engine w)%nat;
  c_refs : forall e, in_flight_on e w <= refs_of w e;
  c_pending : forall j, pending j w -> invocations j (trace w) = 0%nat;
  c_released : forall j, (j < next_request w)%nat -> ~ pending j w ->
                         invocations j (trace w) = 1%nat;
  c_future : forall j, (next_request w <= j)%nat -> invocations j (trace w) = 0%nat;
  c_work : forall b, b ∈ work_queue w -> error b = false;
  c_done : forall b, b ∈ done_queue w ->
             exists osrm, engine_of w (machine b) = Some osrm /\ answered osrm b
}.

(** The callback invocations in a trace. *)
Fixpoint completions (t : list Event) : nat :=
  match t with
  | [] => 0
  | Invoke _ _ _ :: t => S (completions t)
  | FatalException _ :: t => completions t
  end.

(** The two shapes of the arguments [AfterRun] gives a callback: an
    error alone, or [null] and a string. *)
Definition delivery (argv : list Value) : Prop :=
  (exists msg, argv = [VError msg]) \/ (exists payload, argv = [VNull; VString payload]).

Definition well_delivered (ev : Event) : Prop :=
  match ev with
  | Invoke _ _ argv => delivery argv
  | FatalException _ => True
  end.


(** A property that the object has, with the value [null] or
    [undefined]. *)
Definition present_but_empty (obj : Value) (k : string) : Prop :=
  Has obj k = true /\ (IsNull (Get obj k) || IsUndefined (Get obj k) = true).

(** The service each method asks the engine for. *)
Definition service_of (op : Operation) : string :=
  match op with
  | route => "viaroute"
  | locate => "locate"
  | nearest => "nearest"
  | table => "table"
  end.

(** *** What the caller of a method observes *)





End Binding.

End Engine.

(* ===================================================================== *)
(** ** A concrete runtime and library, for worked examples               *)
(* ===================================================================== *)

Module Sample.

Import V8 Engine.

(** A runtime whose callbacks do not raise. The string and object
    coercions are not exercised by the examples. *)
Definition runtime : Runtime :=
  {| StringToNumber := fun _ => Double.NaN;
     ObjectToNumber := fun _ => Double.NaN;
     ObjectToNumber_throws := fun _ => false;
     NonStringToString := fun _ => "[object Object]";
     callback_throws := fun _ _ => false |}.

(** The conversion of x86: [cvttsd2si] yields [INT_MIN] wherever no
    [int] holds the truncation. *)
Definition platform : Platform :=
  {| unrepresentable := fun _ => Double.INT_MIN |}.

Definition ctor_defaults : RouteParameters :=
  {| zoom_level := 18; print_instructions := false; alternate_route := true;
     geometry := true; compression := true; check_sum := 0;
     service := ""; output_format := ""; jsonp_parameter := "";
     language := ""; hints := []; coordinates := [] |}.

(** A library whose engine always constructs, answers every request
    with one fixed document, except that the "locate" service raises. *)
Definition library : Library :=
  {| COORDINATE_PRECISION := Double.of_Z 1000000;
     RouteParameters_ctor := ctor_defaults;
     OSRM := unit;
     OSRM_ctor := fun _ _ => inl ();
     RunQuery := fun _ p =>
       if String.eqb (service p) "locate"
       then Raise "no such service"
       else Reply "{}" |}.

Definition number (z : Z) : Value := VNumber (Double.of_Z z).
Definition pair (a b : Z) : Value := VArray [number a; number b].

(** The world after [new OSRM()]: one engine, handle 0, nothing in
    flight. *)
Definition one_engine : @World library :=
  (@New runtime library (@initial library) true []).1.

#[local] Existing Instance runtime.
#[local] Existing Instance library.
#[local] Existing Instance platform.

Definition callback : Value := VFunction 7.

(** [{coordinates: [[1,2],[3,4]]}] *)
Definition two_points : Value :=
  VObject [("coordinates", VArray [pair 1 2; pair 3 4])].

(** [{coordinates: [[1,2],[3,4]], hints: [1, "abc"]}] *)
Definition bad_hints : Value :=
  VObject [("coordinates", VArray [pair 1 2; pair 3 4]);
           ("hints", VArray [number 1; VString "abc"])].

(** The parameters [route] has built from [two_points] when it reaches
    the hints. *)
Definition two_points_parameters : RouteParameters :=
  {| zoom_level := 18; print_instructions := false; alternate_route := true;
     geometry := true; compression := true; check_sum := 0;
     service := "viaroute"; output_format := "json"; jsonp_parameter := "";
     language := ""; hints := [];
     coordinates := [(1000000, 2000000); (3000000, 4000000)] |}.

(** The world after [route(two_points, callback)] on the one engine. *)
Definition submitted : World := (method route one_engine 0 [two_points; callback]).1.

(** [new OSRM()], then [locate([1,2], callback)], then the worker has
    run the query, which raised. *)
Definition located : list Action :=
  [Construct true []; Call locate 0 [pair 1 2; callback]; Work 0].

(** The world after [locate([1,2], callback)] on the one engine. *)
Definition locate_submitted : World :=
  (method locate one_engine 0 [pair 1 2; callback]).1.

Definition after_locate : World :=
  match perform_all located initial with
  | Normal w => w
  | _ => initial
  end.

Definition locate_baton : RunQueryBaton :=
  {| request := 0; machine := 0; result := "no such service";
     params :=
       {| zoom_level := 18; print_instructions := false; alternate_route := true;
          geometry := true; compression := true; check_sum := 0;
          service := "locate"; output_format := ""; jsonp_parameter := "";
          language := ""; hints := []; coordinates := [(1000000, 2000000)] |};
     cb := 7; error := true |}.

Definition bad_hints_props : list (string * Value) :=
  [("coordinates", VArray [pair 1 2; pair 3 4]);
   ("hints", VArray [number 1; VString "abc"])].




(** -1.23456789, the double nearest to it. *)
Definition minus_1_23456789 : spec_float :=
  SFdiv Double.prec Double.emax (Double.of_Z (-123456789)) (Double.of_Z 100000000).

Definition with_options : Value :=
  VObject [("coordinates", VArray [pair 1 2; pair 3 4]);
           ("zoomLevel", number 12);
           ("printInstructions", VBoolean true);
           ("hints", VArray [VNull; VString "abc"])].

Definition with_options_parameters : RouteParameters :=
  {| zoom_level := 12; print_instructions := true; alternate_route := true;
     geometry := true; compression := true; check_sum := 0;
     service := "viaroute"; output_format := "json"; jsonp_parameter := "";
     language := ""; hints := [""; "abc"];
     coordinates := [(1000000, 2000000); (3000000, 4000000)] |}.

(** Three hints for two coordinates. *)
Definition three_hints_props : list (string * Value) :=
  [("coordinates", VArray [pair 1 2; pair 3 4]);
   ("hints", VArray [VString "a"; VNull; VString "b"])].

(** A runtime in which every callback raises. *)
Definition raising : Runtime :=
  {| StringToNumber := fun _ => Double.NaN;
     ObjectToNumber := fun _ => Double.NaN;
     ObjectToNumber_throws := fun _ => false;
     NonStringToString := fun _ => "[object Object]";
     callback_throws := fun _ _ => true |}.




(** The parameters [table] builds from [bad_hints]. *)
Definition table_points_parameters : RouteParameters :=
  {| zoom_level := 18; print_instructions := false; alternate_route := true;
     geometry := true; compression := true; check_sum := 0;
     service := "table"; output_format := ""; jsonp_parameter := "";
     language := ""; hints := [];
     coordinates := [(1000000, 2000000); (3000000, 4000000)] |}.

(** [{coordinates: [[1,2],[3,4]], hints: null}] *)
Definition null_hints_props : list (string * Value) :=
  [("coordinates", VArray [pair 1 2; pair 3 4]); ("hints", VNull)].

(** [{coordinates: [[1,2],[3,4]], alternateRoute: undefined, zoomLevel: null}] *)
Definition empty_options : Value :=
  VObject [("coordinates", VArray [pair 1 2; pair 3 4]);
           ("alternateRoute", VUndefined);
           ("zoomLevel", VNull)].

Definition empty_options_parameters : RouteParameters :=
  {| zoom_level := 0; print_instructions := false; alternate_route := false;
     geometry := true; compression := true; check_sum := 0;
     service := "viaroute"; output_format := "json"; jsonp_parameter := "";
     language := ""; hints := [];
     coordinates := [(1000000, 2000000); (3000000, 4000000)] |}.

(** A hint and a JSONP parameter with a NUL character inside. *)
Definition with_nul : string := String "a" (String Ascii.zero "b").

Definition nul_strings : Value :=
  VObject [("coordinates", VArray [pair 1 2; pair 3 4]);
           ("jsonpParameter", VString with_nul);
           ("hints", VArray [VString with_nul])].

Definition nul_strings_parameters : RouteParameters :=
  {| zoom_level := 18; print_instructions := false; alternate_route := true;
     geometry := true; compression := true; check_sum := 0;
     service := "viaroute"; output_format := "json"; jsonp_parameter := "a";
     language := ""; hints := ["a"];
     coordinates := [(1000000, 2000000); (3000000, 4000000)] |}.

(** [new OSRM()], then [route(two_points, callback)]. *)
Definition routed : list Action :=
  [Construct true []; Call route 0 [two_points; callback]].

(** The world after the worker has run the query of [submitted]. *)
Definition worked : World :=
  match run_work 0 submitted with
  | Normal w => w
  | _ => submitted
  end.

(** The baton of [submitted] once the query has answered. *)
Definition route_baton : RunQueryBaton :=
  {| request := 0; machine := 0; result := "{}"; params := two_points_parameters;
     cb := 7; error := false |}.

(** The world after the loop has reported the job of [submitted]. *)
Definition reported : World :=
  match run_loop 2 submitted with
  | Normal w => w
  | _ => submitted
  end.

End Sample.

(* ===================================================================== *)
(** ** Truncation of doubles                                             *)
(* ===================================================================== *)

Section Truncation.

Lemma cond_Zopp_quot (s : bool) (n d : Z) :
  0 <= n -> 0 < d -> Z.quot (cond_Zopp s n) d = cond_Zopp s (n / d).
Proof.
  intros Hn Hd. destruct s; simpl.
  - rewrite Z.quot_opp_l by lia. now rewrite Z.quot_div_nonneg by lia.
  - now rewrite Z.quot_div_nonneg by lia.
Qed.

(** The shift in [Double.truncate] computes the quotient, rounded
    toward zero, of the exact value. *)
Lemma truncate_rounds_toward_zero (x : spec_float) :
  Double.is_finite x = true ->
  Double.truncate x = Some (Double.round_toward_zero x).
Proof.
  destruct x as [s | s | | s m e]; simpl; try discriminate; intros _.
  - reflexivity.
  - unfold Double.round_toward_zero; simpl. f_equal.
    destruct (Z.le_gt_cases 0 e) as [He | He].
    + rewrite Z.shiftl_mul_pow2 by exact He.
      rewrite (Z.max_l e 0), (Z.max_r (- e) 0) by lia.
      change (2 ^ 0) with 1. rewrite Z.quot_1_r. reflexivity.
    + rewrite Z.shiftl_div_pow2 by lia.
      rewrite (Z.max_r e 0), (Z.max_l (- e) 0) by lia.
      change (2 ^ 0) with 1. rewrite Z.mul_1_r.
      rewrite cond_Zopp_quot; [reflexivity | lia |].
      apply Z.pow_pos_nonneg; lia.
Qed.

Lemma truncate_finite (x : spec_float) (z : Z) :
  Double.truncate x = Some z -> Double.is_finite x = true.
Proof. destruct x; simpl; congruence. Qed.

(** Whenever [static_cast<int>] is defined, its value is the exact
    value rounded toward zero, and it fits in [int]. *)
Lemma static_cast_int_Some (x : spec_float) (z : Z) :
  Double.static_cast_int x = Some z <->
  Double.is_finite x = true /\ z = Double.round_toward_zero x /\
  Double.int_range z = true.
Proof.
  unfold Double.static_cast_int. split.
  - destruct (Double.truncate x) as [t|] eqn:Ht; [|discriminate].
    destruct (Double.int_range t) eqn:Hr; [|discriminate].
    intros [= <-]. pose proof (truncate_finite _ _ Ht) as Hf.
    rewrite (truncate_rounds_toward_zero _ Hf) in Ht. injection Ht as ->.
    auto.
  - intros (Hf & -> & Hr). rewrite (truncate_rounds_toward_zero _ Hf), Hr.
    reflexivity.
Qed.

(** Rounding toward zero never moves away from zero and never by a
    whole unit: [|r * den| <= |num| < |r * den| + den], and [r] has the
    sign of the value or is zero. *)
Lemma round_toward_zero_bounds (x : spec_float) :
  let r := Double.round_toward_zero x in
  Z.abs (r * Double.den x) <= Z.abs (Double.num x) < Z.abs (r * Double.den x) + Double.den x
  /\ 0 <= r * Double.num x.
Proof.
  intros r. unfold r, Double.round_toward_zero.
  assert (Hd : 0 < Double.den x).
  { destruct x; simpl; first [lia | apply Z.pow_pos_nonneg; lia]. }
  set (n := Double.num x) in *. set (d := Double.den x) in *.
  pose proof (Z.quot_rem n d ltac:(lia)) as Hqr.
  pose proof (Z.rem_bound_abs n d ltac:(lia)) as Hb.
  pose proof (Z.rem_sign_nz n d ltac:(lia)) as Hs.
  destruct (Z.eq_dec (Z.rem n d) 0) as [Hz | Hz].
  - rewrite Hz in *. split; [|nia]. split; [apply Z.eq_le_incl; f_equal; lia | lia ].
  - specialize (Hs Hz).
    destruct (Z.lt_trichotomy n 0) as [Hn | [Hn | Hn]].
    + rewrite (Z.sgn_neg n) in Hs by lia.
      assert (Z.rem n d < 0) by (destruct (Z.rem n d); simpl in *; lia).
      assert (Z.quot n d <= 0) by nia.
      split; [lia | nia].
    + subst n. rewrite Hn in *. rewrite Z.rem_0_l in Hz by lia. lia.
    + rewrite (Z.sgn_pos n) in Hs by lia.
      assert (0 < Z.rem n d) by (destruct (Z.rem n d); simpl in *; lia).
      assert (0 <= Z.quot n d) by nia.
      split; [lia | nia].
Qed.

End Truncation.

(* ===================================================================== *)
(** ** The parameter builders                                            *)
(* ===================================================================== *)

Lemma bind_Normal {A B} (c : Completion A) (k : A -> Completion B) (b : B) :
  c ≫= k = Normal b <-> exists a, c = Normal a /\ k a = Normal b.
Proof.
  destruct c as [a | e |]; simpl;
    (split; [intros Hk | intros (a' & Heq & Hk)]); try discriminate;
    [eauto | congruence].
Qed.

Lemma bind_Throw {A B} (c : Completion A) (k : A -> Completion B) (e : Exception) :
  c ≫= k = Throw e <-> c = Throw e \/ exists a, c = Normal a /\ k a = Throw e.
Proof.
  destruct c as [a | e' |]; simpl;
    (split; [intros Hk | intros [Heq | (a' & Heq & Hk)]]); try discriminate;
    try congruence; [right; exists a; split; [reflexivity | exact Hk] | left; congruence].
Qed.

Section Builders.
Context `{V8.Runtime} `{Library} {cxx : Platform}.
Import V8 Engine.

Lemma ToObject_IsObject (v : Value) :
  IsObject v = true -> ToObject v = Some v.
Proof. destruct v; simpl; congruence. Qed.

Lemma ToObject_not_null (v o : Value) :
  ToObject v = Some o -> IsNull o || IsUndefined o = false.
Proof. destruct v; simpl; intros [= <-]; reflexivity. Qed.

(** **** The conversion of one component *)

Lemma wrap_signed_int (z : Z) : Double.int_range (Double.wrap_signed 32 z) = true.
Proof.
  unfold Double.int_range, Double.wrap_signed, Double.INT_MIN, Double.INT_MAX.
  pose proof (Z.mod_pos_bound (z + 2 ^ (32 - 1)) (2 ^ 32) ltac:(lia)) as Hm.
  apply andb_true_iff. split; apply Z.leb_le; lia.
Qed.

Lemma to_int_defined (x : spec_float) (z : Z) :
  Double.static_cast_int x = Some z -> to_int x = z.
Proof. unfold to_int. now intros ->. Qed.

Lemma to_int_range (x : spec_float) : Double.int_range (to_int x) = true.
Proof.
  unfold to_int. destruct (Double.static_cast_int x) as [z|] eqn:Hc.
  - now apply static_cast_int_Some in Hc as (_ & _ & Hr).
  - apply wrap_signed_int.
Qed.

Lemma scaled_defined (v : Value) (z : Z) : scale v = Some z -> scaled v = z.
Proof. apply to_int_defined. Qed.

(** **** The loop over the coordinates *)

Lemma same_options_refl p : same_options p p.
Proof. repeat split. Qed.

Lemma coordinates_loop_Normal (es : list Value) (p p' : RouteParameters) :
  coordinates_loop es p = Normal p' ->
  same_options p p' /\ hints p' = hints p /\
  exists cs, coordinates p' = coordinates p ++ cs /\
             Forall2 (fun e c => IsArray e = true /\ Length e = 2%nat /\
                                 scale_pair e = c) es cs.
Proof.
  revert p. induction es as [|e es IH]; simpl; intros p Hl.
  - injection Hl as <-. split; [apply same_options_refl|]. split; [reflexivity|].
    exists []. rewrite app_nil_r. split; [reflexivity | constructor].
  - destruct (IsArray e) eqn:Ha; simpl in Hl; [|discriminate].
    destruct (Nat.eqb_spec (Length e) 2) as [Hlen|]; simpl in Hl; [|discriminate].
    apply IH in Hl as (Ho & Hh & cs & Hcs & Hall).
    split; [exact Ho|]. split; [exact Hh|].
    exists (scale_pair e :: cs). simpl in Hcs. rewrite Hcs, <- app_assoc.
    split; [reflexivity|]. constructor; auto.
Qed.

(** The loop stores the converted entries, in order. *)
Lemma coordinates_loop_stores (es : list Value) (p p' : RouteParameters) :
  coordinates_loop es p = Normal p' ->
  coordinates p' = coordinates p ++ (scale_pair <$> es).
Proof.
  intros Hl. apply coordinates_loop_Normal in Hl as (_ & _ & cs & -> & Hall).
  f_equal. induction Hall as [|e c es cs (_ & _ & <-) _ IH]; [reflexivity|].
  simpl. now rewrite IH.
Qed.


Lemma coordinates_loop_Throw (es : list Value) (p : RouteParameters) (e : Exception) :
  coordinates_loop es p = Throw e ->
  e = Error "coordinates must be an array of (lat/long) pairs" /\
  Exists malformed es.
Proof.
  revert p. induction es as [|c es IH]; simpl; intros p Hl; [discriminate|].
  destruct (IsArray c) eqn:Ha; simpl in Hl.
  2:{ injection Hl as <-. split; [reflexivity|]. left. now left. }
  destruct (Nat.eqb_spec (Length c) 2) as [Hlen|Hlen]; simpl in Hl.
  2:{ injection Hl as <-. split; [reflexivity|]. left. now right. }
  apply IH in Hl as [-> Hex]. split; [reflexivity | now right].
Qed.



(** **** The loop over the hints *)

Lemma hints_loop_Normal (hs : list Value) (p p' : RouteParameters) :
  hints_loop hs p = Normal p' ->
  same_options p p' /\ coordinates p' = coordinates p /\
  hints p' = hints p ++ (hint_of <$> hs) /\ Forall acceptable_hint hs.
Proof.
  revert p. induction hs as [|h hs IH]; simpl; intros p Hl.
  - injection Hl as <-. rewrite app_nil_r. repeat split. constructor.
  - unfold hint_of at 1. destruct (IsString h) eqn:Hs.
    + apply IH in Hl as (Ho & Hc & Hh & Hall). simpl in *.
      rewrite Hh, <- app_assoc. repeat split; try apply Ho; auto.
      constructor; [now left | assumption].
    + destruct (IsNull h) eqn:Hn; [|discriminate].
      apply IH in Hl as (Ho & Hc & Hh & Hall). simpl in *.
      rewrite Hh, <- app_assoc. repeat split; try apply Ho; auto.
      constructor; [now right | assumption].
Qed.

Lemma hints_loop_acceptable (hs : list Value) (p : RouteParameters) :
  Forall acceptable_hint hs -> exists p', hints_loop hs p = Normal p'.
Proof.
  intros Hall. revert p. induction Hall as [|h hs [Hs | Hn] _ IH]; simpl; intros p.
  - eauto.
  - rewrite Hs. apply IH.
  - rewrite Hn. destruct (IsString h); apply IH.
Qed.

Lemma hints_loop_rejected (hs : list Value) (p : RouteParameters) :
  Exists (fun h => ~ acceptable_hint h) hs ->
  hints_loop hs p = Throw (Error "hint must be null or string").
Proof.
  intros Hex. revert p. induction Hex as [h hs Hbad | h hs _ IH]; simpl; intros p.
  - destruct (IsString h) eqn:Hs; [exfalso; apply Hbad; now left|].
    destruct (IsNull h) eqn:Hn; [exfalso; apply Hbad; now right|]. reflexivity.
  - destruct (IsString h); [apply IH|]. destruct (IsNull h); [apply IH | reflexivity].
Qed.


(** **** [route] as a whole *)

Lemma route_parameters_object (args : list Value) :
  (2 <= length args)%nat -> IsObject (arg args 0) = true ->
  route_parameters args =
    route_coordinates (arg args 0) (route_defaults new_RouteParameters)
      ≫= fun params => route_hints (arg args 0) (route_options (arg args 0) params).
Proof.
  intros Hlen Hobj. unfold route_parameters.
  destruct (Nat.ltb_spec (length args) 2); [lia|].
  rewrite Hobj, (ToObject_IsObject _ Hobj). simpl.
  rewrite (ToObject_not_null _ _ (ToObject_IsObject _ Hobj)). reflexivity.
Qed.

Lemma route_parameters_Normal (args : list Value) (p : RouteParameters) :
  route_parameters args = Normal p ->
  (2 <= length args)%nat /\ IsObject (arg args 0) = true /\
  exists pc,
    route_coordinates (arg args 0) (route_defaults new_RouteParameters) = Normal pc /\
    route_hints (arg args 0) (route_options (arg args 0) pc) = Normal p.
Proof.
  intros Hr.
  assert (Hlen : (2 <= length args)%nat).
  { unfold route_parameters in Hr.
    destruct (Nat.ltb_spec (length args) 2); [discriminate | assumption]. }
  assert (Hobj : IsObject (arg args 0) = true).
  { unfold route_parameters in Hr.
    destruct (length args <? 2)%nat; [discriminate|].
    destruct (IsObject (arg args 0)); [reflexivity | discriminate]. }
  rewrite (route_parameters_object _ Hlen Hobj) in Hr.
  apply bind_Normal in Hr. auto.
Qed.

Lemma route_coordinates_Normal (obj : Value) (p pc : RouteParameters) :
  route_coordinates obj p = Normal pc ->
  coordinates_loop (elements (Get obj "coordinates")) p = Normal pc /\
  IsArray (Get obj "coordinates") = true /\
  (Length (Get obj "coordinates") <? 2)%nat = false.
Proof.
  unfold route_coordinates.
  destruct (Has obj "coordinates"); simpl; [|discriminate].
  destruct (IsArray (Get obj "coordinates")); simpl; [|discriminate].
  destruct (Length (Get obj "coordinates") <? 2)%nat; [discriminate|].
  auto.
Qed.

Lemma route_options_fields (obj : Value) (q : RouteParameters) :
  alternate_route (route_options obj q) =
    (if Has obj "alternateRoute" then BooleanValue (Get obj "alternateRoute")
     else alternate_route q) /\
  check_sum (route_options obj q) =
    (if Has obj "checksum"
     then Double.static_cast_unsigned (Uint32Value (Get obj "checksum"))
     else check_sum q) /\
  zoom_level (route_options obj q) =
    (if Has obj "zoomLevel"
     then Double.static_cast_short (Int32Value (Get obj "zoomLevel"))
     else zoom_level q) /\
  print_instructions (route_options obj q) =
    (if Has obj "printInstructions" then BooleanValue (Get obj "printInstructions")
     else print_instructions q) /\
  jsonp_parameter (route_options obj q) =
    (if Has obj "jsonpParameter" then Utf8Value (Get obj "jsonpParameter")
     else jsonp_parameter q) /\
  hints (route_options obj q) = hints q /\
  coordinates (route_options obj q) = coordinates q.
Proof.
  unfold route_options.
  destruct (Has obj "alternateRoute"), (Has obj "checksum"), (Has obj "zoomLevel"),
    (Has obj "printInstructions"), (Has obj "jsonpParameter"); simpl; repeat split.
Qed.

Lemma route_hints_Normal (obj : Value) (q p : RouteParameters) :
  route_hints obj q = Normal p ->
  same_options q p /\ coordinates p = coordinates q /\
  hints p = hints q ++
    (if Has obj "hints" then hint_of <$> elements (Get obj "hints") else []).
Proof.
  unfold route_hints. destruct (Has obj "hints").
  - destruct (IsArray (Get obj "hints")); simpl; [|discriminate].
    intros Hl. apply hints_loop_Normal in Hl as (? & ? & ? & _). auto.
  - intros [= <-]. rewrite app_nil_r. split; [apply same_options_refl | auto].
Qed.

(** **** [Run] and the methods *)

Lemma Run_not_function (w : World) (this : nat) (args : list Value)
  (p : RouteParameters) :
  IsFunction (arg args (length args - 1)) = false ->
  Run w this args p =
    (w, Throw (TypeError "last argument must be a callback function")).
Proof.
  unfold Run. destruct (arg args (length args - 1)); simpl; intros Hf;
    try reflexivity; discriminate.
Qed.

Lemma Run_Throw (w w' : World) (this : nat) (args : list Value)
  (p : RouteParameters) (e : Exception) :
  Run w this args p = (w', Throw e) ->
  w' = w /\ e = TypeError "last argument must be a callback function".
Proof.
  unfold Run. destruct (arg args (length args - 1));
    try (intros [= <- <-]; split; reflexivity).
  destruct (engines w !! this); discriminate.
Qed.


(** **** Validation rejects before dispatch *)



(** C6 (as amended). A construct call with no argument builds the
    engine on the shared dataset; with one string argument it builds
    the engine with that string as the base path; with one argument
    that is not a string it fails with "OSRM base path must be a
    string"; with two or more arguments it checks nothing and builds
    the engine with no path and without the shared dataset. *)
Theorem constructor_arguments (w : World) (args : list Value) :
  New w true args =
    match args with
    | [] => construct ∅ true w
    | [VString base] => construct (<["base" := c_str base]> ∅) false w
    | [_] => (w, Throw (Error "OSRM base path must be a string"))
    | _ => construct ∅ false w
    end.
Proof.
  destruct args as [|a [|b rest]]; [reflexivity | | ]; destruct a; reflexivity.
Qed.

(** C7 (as amended). A call whose last argument is not a function
    never submits a job and leaves the world as it was. With fewer than
    two arguments the exception is "two arguments required"; when the
    request itself is valid the exception is "last argument must be a
    callback function". *)
Theorem callback_required (op : Operation) (w : World) (this : nat)
  (args : list Value) :
  IsFunction (arg args (length args - 1)) = false ->
  (method op w this args).1 = w /\
  (method op w this args).2 <> Normal () /\
  ((length args < 2)%nat ->
     method op w this args = (w, Throw (TypeError "two arguments required"))) /\
  (forall p, build op args = Normal p ->
     method op w this args =
       (w, Throw (TypeError "last argument must be a callback function"))).
Proof.
  intros Hf.
  assert (Hvalid : forall p, build op args = Normal p ->
            method op w this args =
              (w, Throw (TypeError "last argument must be a callback function"))).
  { intros p Hb. unfold method. rewrite Hb. now apply Run_not_function. }
  assert (Hshort : (length args < 2)%nat ->
            build op args = Throw (TypeError "two arguments required")).
  { intros Hlen. apply Nat.ltb_lt in Hlen.
    destruct op; simpl;
      unfold route_parameters, locate_parameters, nearest_parameters,
        point_parameters, table_parameters; now rewrite Hlen. }
  repeat split; auto.
  - unfold method. destruct (build op args) eqn:Hb; try reflexivity.
    now rewrite Run_not_function.
  - unfold method. destruct (build op args) eqn:Hb; try discriminate.
    now rewrite Run_not_function.
  - intros Hlen. unfold method. now rewrite (Hshort Hlen).
Qed.

Lemma to_int_truncates (x : spec_float) :
  Double.is_finite x = true ->
  to_int x = Double.round_toward_zero x <->
  Double.int_range (Double.round_toward_zero x) = true.
Proof.
  intros Hf. split.
  - intros <-. apply to_int_range.
  - intros Hr. apply to_int_defined, static_cast_int_Some. auto.
Qed.



Lemma coordinates_loop_Forall2 (es : list Value) (cs : list FixedPointCoordinate)
  (q : RouteParameters) :
  Forall2 (fun e c => IsArray e = true /\ Length e = 2%nat /\
                      scale_pair e = c) es cs ->
  exists q', coordinates_loop es q = Normal q'.
Proof.
  intros Hall. revert q.
  induction Hall as [|e c es cs (Ha & Hlen & Hc) _ IH]; simpl; intros q; [eauto|].
  rewrite Ha, Hlen. simpl. apply IH.
Qed.

Lemma method_build_Throw (op : Operation) (w : World) (this : nat)
  (args : list Value) (e : Exception) :
  build op args = Throw e -> method op w this args = (w, Throw e).
Proof. intros Hb. unfold method. now rewrite Hb. Qed.

(** C4 (as amended). A [route] request that passes the argument and
    coordinate checks and whose hints array holds an entry that is
    neither a string nor [null] fails at once with "hint must be null
    or string" and schedules nothing. [table] does not read the hints:
    on the same input it builds its parameters from the coordinates
    alone, with no hints, and goes on to [Run]. *)
Theorem hints_checked_by_route_only (w : World) (this : nat)
  (props : list (string * Value)) (rest : list Value)
  (pc : RouteParameters) (hs : list Value) :
  rest <> [] ->
  route_coordinates (VObject props) (route_defaults new_RouteParameters) = Normal pc ->
  lookup_prop "hints" props = Some (VArray hs) ->
  Exists (fun h => ~ acceptable_hint h) hs ->
  let args := VObject props :: rest in
  method route w this args = (w, Throw (Error "hint must be null or string")) /\
  exists pt, table_parameters args = Normal pt /\
             coordinates pt = coordinates pc /\ hints pt = [] /\
             method table w this args = Run w this args pt.
Proof.
  intros Hrest Hc Hh Hbad args.
  assert (Hlen : (2 <= length args)%nat).
  { unfold args. destruct rest; [congruence | simpl; lia]. }
  split.
  - apply method_build_Throw. simpl.
    rewrite (route_parameters_object args Hlen eq_refl).
    change (arg args 0) with (VObject props). rewrite Hc. simpl.
    unfold route_hints. simpl. rewrite Hh. simpl.
    now apply hints_loop_rejected.
  - apply route_coordinates_Normal in Hc as (Hc' & Harr & Hl).
    unfold method. simpl build. unfold table_parameters.
    destruct (Nat.ltb_spec (length args) 2) as [|_]; [lia|].
    change (arg args 0) with (VObject props).
    change (defined (ToObject (VObject props)) ≫= ?k) with (k (VObject props)).
    cbv beta. change (IsNull (VObject props) || IsUndefined (VObject props)) with false.
    cbv iota. rewrite Harr, Hl. simpl negb. cbv iota.
    pose proof (coordinates_loop_stores _ _ _ Hc') as Hst.
    apply coordinates_loop_Normal in Hc' as (_ & _ & cs & _ & Hall).
    destruct (coordinates_loop_Forall2 _ _
                (set_service "table" new_RouteParameters) Hall) as [pt Hpt].
    exists pt. rewrite Hpt. split; [reflexivity|].
    pose proof (coordinates_loop_stores _ _ _ Hpt) as Hst'.
    apply coordinates_loop_Normal in Hpt as (_ & Hh' & _).
    rewrite Hst', Hst, Hh'. auto.
Qed.


Lemma table_parameters_object (args : list Value) :
  (2 <= length args)%nat -> IsObject (arg args 0) = true ->
  table_parameters args =
    let coordinates := Get (arg args 0) "coordinates" in
    if negb (IsArray coordinates)
    then Throw (Error "coordinates must be an array of (lat/long) pairs")
    else if (Length coordinates <? 2)%nat
    then Throw (Error "at least two coordinates must be provided")
    else coordinates_loop (elements coordinates)
           (set_service "table" new_RouteParameters).
Proof.
  intros Hlen Hobj. unfold table_parameters.
  destruct (Nat.ltb_spec (length args) 2); [lia|].
  rewrite (ToObject_IsObject _ Hobj). cbn [defined mbind Completion_bind].
  rewrite (ToObject_not_null _ _ (ToObject_IsObject _ Hobj)). reflexivity.
Qed.



(** C10. A hints array whose entries are all strings or [null] is
    accepted whatever its length: nothing relates it to the number of
    coordinates. The hints of the parameters are its entries in input
    order (a string as its text, [null] as the empty string), and the
    coordinates are unaffected. *)
Theorem hints_of_any_length (args : list Value) (props : list (string * Value))
  (pc : RouteParameters) (hs : list Value) :
  (2 <= length args)%nat ->
  arg args 0 = VObject props ->
  route_coordinates (VObject props) (route_defaults new_RouteParameters) = Normal pc ->
  lookup_prop "hints" props = Some (VArray hs) ->
  Forall acceptable_hint hs ->
  exists p, route_parameters args = Normal p /\
            hints p = hint_of <$> hs /\
            length (hints p) = length hs /\
            coordinates p = coordinates pc.
Proof.
  intros Hlen Ha Hc Hh Hall.
  rewrite (route_parameters_object args Hlen) by now rewrite Ha.
  rewrite Ha, Hc. simpl.
  assert (Hhas : Has (VObject props) "hints" = true) by (simpl; now rewrite Hh).
  assert (Hget : Get (VObject props) "hints" = VArray hs) by (simpl; now rewrite Hh).
  unfold route_hints at 1. rewrite Hhas, Hget. simpl.
  destruct (hints_loop_acceptable hs (route_options (VObject props) pc) Hall)
    as [p Hp].
  exists p. split; [exact Hp|].
  apply hints_loop_Normal in Hp as (_ & Hco & Hhi & _).
  destruct (route_options_fields (VObject props) pc) as (_&_&_&_&_& Eh & Eco).
  apply route_coordinates_Normal in Hc as [Hc _].
  apply coordinates_loop_Normal in Hc as (_ & Hhc & _). simpl in Hhc.
  rewrite Eh, Hhc in Hhi. simpl in Hhi.
  rewrite Hhi, Hco, Eco, length_fmap. auto.
Qed.

End Builders.

(* ===================================================================== *)
(** ** The life cycle of a job                                           *)
(* ===================================================================== *)

Section Lifecycle.
Context `{V8.Runtime} `{Library} {cxx : Platform}.
Import V8 Engine.

(** Two engine handles are equal or not; either way the counts add up. *)
Ltac same_engine_or_not x y :=
  destruct (decide (x = y)) as [? | ?];
  [subst; rewrite ?decide_True by reflexivity
  | rewrite ?decide_False by congruence]; lia.

(** **** Counting invocations, jobs and references *)

Lemma invocations_app (j : nat) (t1 t2 : list Event) :
  invocations j (t1 ++ t2) = (invocations j t1 + invocations j t2)%nat.
Proof.
  induction t1 as [|[j' fn argv | j'] t1 IH]; simpl; [reflexivity | | exact IH].
  rewrite IH. lia.
Qed.

Lemma jobs_queues (w : World) :
  jobs w = (job_of <$> work_queue w) ++ (job_of <$> done_queue w).
Proof. unfold jobs, in_flight. apply fmap_app. Qed.

Lemma jobs_delete (l : list RunQueryBaton) (i : nat) (b : RunQueryBaton) :
  l !! i = Some b -> job_of <$> l ≡ₚ job_of b :: (job_of <$> delete i l).
Proof. intros Hi. now rewrite (delete_Permutation l i b Hi) at 1. Qed.

Lemma on_engine_cons (e : nat) (j : nat * nat) (l : list (nat * nat)) :
  on_engine e (j :: l) = (if decide (j.2 = e) then 1 else 0) + on_engine e l.
Proof.
  unfold on_engine. rewrite filter_cons. destruct (decide (j.2 = e)); simpl; lia.
Qed.

Lemma on_engine_nonneg (e : nat) (l : list (nat * nat)) : 0 <= on_engine e l.
Proof. unfold on_engine. lia. Qed.

#[local] Instance on_engine_perm (e : nat) : Proper ((≡ₚ) ==> (=)) (on_engine e).
Proof. intros l1 l2 Hp. unfold on_engine. now rewrite Hp. Qed.

Lemma on_engine_elem (e j : nat) (l : list (nat * nat)) :
  (j, e) ∈ l -> 1 <= on_engine e l.
Proof.
  induction l as [|x l IH]; intros Hin; [inversion Hin|].
  rewrite on_engine_cons. pose proof (on_engine_nonneg e l).
  apply elem_of_cons in Hin as [<- | Hin].
  - simpl. rewrite decide_True by reflexivity. lia.
  - specialize (IH Hin). destruct (decide (x.2 = e)); lia.
Qed.

Lemma on_engine_absent (e : nat) (l : list (nat * nat)) :
  (forall j, (j, e) ∉ l) -> on_engine e l = 0.
Proof.
  induction l as [|[j e'] l IH]; intros Hno; [reflexivity|].
  rewrite on_engine_cons. simpl. destruct (decide (e' = e)) as [-> | _].
  - exfalso. apply (Hno j). now left.
  - rewrite IH; [reflexivity|]. intros j' Hin. apply (Hno j'). now right.
Qed.

(** **** What each step does to the world *)

Lemma refs_moved_refs e d w w' e' :
  refs_moved e d w w' -> is_Some (engines w !! e) ->
  refs_of w' e' = refs_of w e' + (if decide (e' = e) then d else 0).
Proof.
  intros Hm [o Ho]. unfold refs_of. rewrite (Hm e').
  destruct (decide (e' = e)) as [-> | _]; [|lia].
  rewrite Ho. reflexivity.
Qed.

Lemma refs_moved_engine e d w w' e' :
  refs_moved e d w w' -> engine_of w' e' = engine_of w e'.
Proof.
  intros Hm. unfold engine_of. rewrite (Hm e').
  destruct (decide (e' = e)); [|reflexivity]. now destruct (engines w !! e').
Qed.

Lemma refs_moved_alive e d w w' e' :
  refs_moved e d w w' -> is_Some (engines w' !! e') <-> is_Some (engines w !! e').
Proof.
  intros Hm. rewrite (Hm e'). destruct (decide (e' = e)); [|reflexivity].
  apply fmap_is_Some.
Qed.

Lemma Run_Normal (w w' : World) (this : nat) (args : list Value)
  (p : RouteParameters) :
  Run w this args p = (w', Normal ()) ->
  exists fn,
    arg args (length args - 1) = VFunction fn /\
    is_Some (engines w !! this) /\
    refs_moved this 1 w w' /\
    work_queue w' = work_queue w ++
      [{| request := next_request w; machine := this; result := "";
          params := p; cb := fn; error := false |}] /\
    done_queue w' = done_queue w /\ trace w' = trace w /\
    next_request w' = S (next_request w) /\ next_engine w' = next_engine w.
Proof.
  unfold Run. destruct (arg args (length args - 1)) as [| | | | | | | fn |];
    try discriminate.
  destruct (engines w !! this) as [o|] eqn:Ho; [|discriminate].
  intros [= <-]. exists fn. repeat split; eauto.
  intros e'. simpl. rewrite lookup_alter.
  destruct (decide (this = e')) as [-> | Hne].
  - now rewrite decide_True.
  - now rewrite decide_False by congruence.
Qed.

Lemma run_work_Normal (i : nat) (w w' : World) :
  run_work i w = Normal w' ->
  exists b b' o,
    work_queue w !! i = Some b /\ engines w !! machine b = Some o /\
    job_of b' = job_of b /\ cb b' = cb b /\ params b' = params b /\
    (error b = false -> answered (this_ o) b') /\
    engines w' = engines w /\
    work_queue w' = delete i (work_queue w) /\
    done_queue w' = done_queue w ++ [b'] /\ trace w' = trace w /\
    next_request w' = next_request w /\ next_engine w' = next_engine w.
Proof.
  unfold run_work. destruct (work_queue w !! i) as [b|]; [|discriminate].
  simpl. unfold AsyncRun.
  destruct (engines w !! machine b) as [o|] eqn:Ho; [|discriminate].
  destruct (RunQuery (this_ o) (params b)) as [content | what] eqn:Hq; simpl;
    intros [= <-];
    [ exists b, {| request := request b; machine := machine b; result := content;
                   params := params b; cb := cb b; error := error b |}, o
    | exists b, {| request := request b; machine := machine b;
                   result := c_str what; params := params b; cb := cb b;
                   error := true |}, o ];
    simpl; (split; [reflexivity|]); (split; [exact Ho|]);
    (split; [reflexivity|]); (split; [reflexivity|]); (split; [reflexivity|]);
    (split; [|repeat split]);
    intros Herr; unfold answered; simpl; rewrite Hq; auto.
Qed.

Lemma run_after_Normal (i : nat) (w w' : World) :
  run_after i w = Normal w' ->
  exists b,
    done_queue w !! i = Some b /\
    is_Some (engines w !! machine b) /\ 0 < refs_of w (machine b) /\
    refs_moved (machine b) (-1) w w' /\
    work_queue w' = work_queue w /\
    done_queue w' = delete i (done_queue w) /\
    trace w' = trace w ++
      Invoke (request b) (cb b) (callback_argv b) ::
      (if callback_throws (cb b) (callback_argv b)
       then [FatalException (request b)] else []) /\
    next_request w' = next_request w /\ next_engine w' = next_engine w.
Proof.
  unfold run_after. destruct (done_queue w !! i) as [b|] eqn:Hb; [|discriminate].
  simpl. unfold AfterRun, Unref.
  destruct (callback_throws (cb b) (callback_argv b)) eqn:Hthrows; simpl;
    (destruct (engines w !! machine b) as [o|] eqn:Ho; [|discriminate]);
    (destruct (Z.ltb_spec 0 (refs_ o)); [|discriminate]);
    intros [= <-]; exists b; simpl; rewrite Hthrows;
    (split; [reflexivity|]); (split; [now rewrite Ho|]);
    (split; [unfold refs_of; now rewrite Ho|]);
    (split; [|repeat split; now rewrite <- ?app_assoc]);
    intros e'; simpl; rewrite lookup_insert;
    (destruct (decide (machine b = e')) as [<- | Hne];
     [rewrite decide_True by reflexivity; now rewrite Ho
     | now rewrite decide_False by congruence]).
Qed.


(** **** The jobs in flight after each step *)

Lemma jobs_Run (w w' : World) (this : nat) (args : list Value) (p : RouteParameters) :
  Run w this args p = (w', Normal ()) ->
  jobs w' ≡ₚ (next_request w, this) :: jobs w.
Proof.
  intros HR. apply Run_Normal in HR as (fn & _ & _ & _ & Hwq & Hdq & _).
  rewrite !jobs_queues, Hwq, Hdq, fmap_app. simpl. unfold job_of at 2. simpl.
  solve_Permutation.
Qed.

Lemma jobs_work (i : nat) (w w' : World) :
  run_work i w = Normal w' -> jobs w' ≡ₚ jobs w.
Proof.
  intros Hw. apply run_work_Normal in Hw
    as (b & b' & o & Hb & _ & Hj & _ & _ & _ & _ & Hwq & Hdq & _).
  rewrite !jobs_queues, Hwq, Hdq, fmap_app. simpl. rewrite Hj.
  rewrite (jobs_delete _ _ _ Hb). solve_Permutation.
Qed.

Lemma jobs_after (i : nat) (w w' : World) :
  run_after i w = Normal w' ->
  exists b, done_queue w !! i = Some b /\ jobs w ≡ₚ job_of b :: jobs w'.
Proof.
  intros Ha. apply run_after_Normal in Ha as (b & Hb & _ & _ & _ & Hwq & Hdq & _).
  exists b. split; [exact Hb|].
  rewrite !jobs_queues, Hwq, Hdq. rewrite (jobs_delete _ _ _ Hb). solve_Permutation.
Qed.

Lemma pending_perm (j : nat) (w w' : World) :
  jobs w' ≡ₚ jobs w -> pending j w' <-> pending j w.
Proof. intros Hp. unfold pending. now rewrite Hp. Qed.

Lemma in_flight_on_jobs (e : nat) (w : World) :
  in_flight_on e w = on_engine e (jobs w).
Proof. reflexivity. Qed.

(** **** The invariant *)

Lemma consistent_initial : consistent initial.
Proof.
  split; simpl.
  - constructor.
  - intros j Hj. inversion Hj.
  - intros j e Hj. inversion Hj.
  - intros e [o Ho]. rewrite lookup_empty in Ho. discriminate.
  - intros e. unfold in_flight_on, on_engine, refs_of. simpl.
    rewrite lookup_empty. simpl. lia.
  - intros j Hj. inversion Hj.
  - intros j Hj. lia.
  - intros j _. reflexivity.
  - intros b Hb. inversion Hb.
  - intros b Hb. inversion Hb.
Qed.

Lemma consistent_Run (w w' : World) (this : nat) (args : list Value)
  (p : RouteParameters) :
  consistent w -> Run w this args p = (w', Normal ()) -> consistent w'.
Proof.
  intros C HR. pose proof (jobs_Run _ _ _ _ _ HR) as Hj.
  apply Run_Normal in HR as (fn & Hfn & Hthis & Hm & Hwq & Hdq & Ht & Hn & He).
  assert (Hpend : forall j, pending j w' <-> j = next_request w \/ pending j w).
  { intros j. unfold pending. rewrite Hj. simpl. apply elem_of_cons. }
  split.
  - rewrite Hj. simpl. constructor; [|apply (c_nodup _ C)].
    intros Hin. apply (c_bound _ C) in Hin. lia.
  - intros j Hp. rewrite Hn. apply Hpend in Hp as [-> | Hp]; [lia|].
    apply (c_bound _ C) in Hp. lia.
  - intros j e Hin. rewrite Hj in Hin. apply (refs_moved_alive _ _ _ _ _ Hm).
    apply elem_of_cons in Hin as [[= -> ->] | Hin]; [exact Hthis|].
    exact (c_alive _ C _ _ Hin).
  - intros e He'. rewrite He. apply (c_fresh _ C).
    now apply (refs_moved_alive _ _ _ _ _ Hm).
  - intros e. rewrite (refs_moved_refs _ _ _ _ _ Hm Hthis).
    rewrite in_flight_on_jobs, Hj, on_engine_cons. simpl.
    pose proof (c_refs _ C e) as Hr. rewrite in_flight_on_jobs in Hr.
    same_engine_or_not this e.
  - intros j Hp. rewrite Ht. apply Hpend in Hp as [-> | Hp].
    + apply (c_future _ C). lia.
    + now apply (c_pending _ C).
  - intros j Hlt Hnp. rewrite Ht. rewrite Hn in Hlt.
    apply (c_released _ C).
    + destruct (decide (j = next_request w)) as [-> | Hne]; [|lia].
      exfalso. apply Hnp, Hpend. now left.
    + intros Hp. apply Hnp, Hpend. now right.
  - intros j Hle. rewrite Ht. apply (c_future _ C). lia.
  - intros b Hb. rewrite Hwq in Hb. apply elem_of_app in Hb as [Hb | Hb].
    + now apply (c_work _ C).
    + apply list_elem_of_singleton in Hb as ->. reflexivity.
  - intros b Hb. rewrite Hdq in Hb. rewrite (refs_moved_engine _ _ _ _ _ Hm).
    now apply (c_done _ C).
Qed.


Lemma consistent_work (i : nat) (w w' : World) :
  consistent w -> run_work i w = Normal w' -> consistent w'.
Proof.
  intros C Hw. pose proof (jobs_work _ _ _ Hw) as Hj.
  apply run_work_Normal in Hw
    as (b & b' & o & Hb & Ho & Hjb & _ & _ & Hans & He & Hwq & Hdq & Ht & Hn & Hne).
  assert (Hpend : forall j, pending j w' <-> pending j w)
    by (intros j; now apply pending_perm).
  split.
  - rewrite Hj. apply (c_nodup _ C).
  - intros j Hp. rewrite Hn. apply (c_bound _ C). now apply Hpend.
  - intros j e Hin. rewrite He. rewrite Hj in Hin. exact (c_alive _ C _ _ Hin).
  - intros e. rewrite He, Hne. apply (c_fresh _ C).
  - intros e. unfold refs_of. rewrite He. rewrite in_flight_on_jobs, Hj.
    apply (c_refs _ C e).
  - intros j Hp. rewrite Ht. apply (c_pending _ C). now apply Hpend.
  - intros j Hlt Hnp. rewrite Ht. rewrite Hn in Hlt. apply (c_released _ C); [exact Hlt|].
    intros Hp. now apply Hnp, Hpend.
  - intros j Hle. rewrite Ht. rewrite Hn in Hle. now apply (c_future _ C).
  - intros b0 Hb0. rewrite Hwq in Hb0. apply list_elem_of_delete_inv in Hb0.
    now apply (c_work _ C).
  - intros b0 Hb0. unfold engine_of. rewrite He. rewrite Hdq in Hb0.
    apply elem_of_app in Hb0 as [Hb0 | Hb0]; [now apply (c_done _ C)|].
    apply list_elem_of_singleton in Hb0 as ->. exists (this_ o).
    injection Hjb as _ ->. rewrite Ho. split; [reflexivity|].
    apply Hans, (c_work _ C). eapply list_elem_of_lookup_2, Hb.
Qed.

Lemma invocations_delivery (j jb fn : nat) (argv : list Value) (throws : bool) :
  invocations j (Invoke jb fn argv :: (if throws then [FatalException jb] else []))
  = if decide (jb = j) then 1%nat else 0%nat.
Proof. destruct throws; simpl; destruct (decide (jb = j)); reflexivity. Qed.

Lemma consistent_after (i : nat) (w w' : World) :
  consistent w -> run_after i w = Normal w' -> consistent w'.
Proof.
  intros C Ha. destruct (jobs_after _ _ _ Ha) as (b & Hb & Hj).
  apply run_after_Normal in Ha
    as (b0 & Hb0 & Halive & Hpos & Hm & Hwq & Hdq & Ht & Hn & Hne).
  rewrite Hb in Hb0. injection Hb0 as <-.
  pose proof (c_nodup _ C) as Hnd. rewrite Hj in Hnd. simpl in Hnd.
  apply NoDup_cons in Hnd as [Hfresh Hnd].
  assert (Hpend : forall j, pending j w <-> j = request b \/ pending j w').
  { intros j. unfold pending. rewrite Hj. simpl. apply elem_of_cons. }
  assert (Hinv : forall j, invocations j (trace w') =
            (invocations j (trace w) + if decide (request b = j) then 1 else 0)%nat).
  { intros j. rewrite Ht, invocations_app. f_equal. apply invocations_delivery. }
  split.
  - exact Hnd.
  - intros j Hp. rewrite Hn. apply (c_bound _ C), Hpend. now right.
  - intros j e Hin. apply (refs_moved_alive _ _ _ _ _ Hm).
    apply (c_alive _ C j). rewrite Hj. now right.
  - intros e He. rewrite Hne. apply (c_fresh _ C).
    now apply (refs_moved_alive _ _ _ _ _ Hm).
  - intros e. rewrite (refs_moved_refs _ _ _ _ _ Hm Halive).
    pose proof (c_refs _ C e) as Hr.
    rewrite in_flight_on_jobs, Hj, on_engine_cons in Hr. simpl in Hr.
    rewrite in_flight_on_jobs.
    same_engine_or_not (machine b) e.
  - intros j Hp. rewrite Hinv.
    rewrite decide_False by (intros <-; now apply Hfresh).
    rewrite (c_pending _ C); [reflexivity|]. apply Hpend. now right.
  - intros j Hlt Hnp. rewrite Hinv. rewrite Hn in Hlt.
    destruct (decide (request b = j)) as [<- | Hneq].
    + rewrite (c_pending _ C); [reflexivity|]. apply Hpend. now left.
    + rewrite (c_released _ C); [lia | exact Hlt |].
      intros Hp. apply Hpend in Hp as [-> | Hp]; [congruence | contradiction].
  - intros j Hle. rewrite Hinv. rewrite Hn in Hle.
    assert (request b < next_request w)%nat
      by (apply (c_bound _ C), Hpend; now left).
    rewrite decide_False by lia. rewrite (c_future _ C); [reflexivity | exact Hle].
  - intros b0 Hb0. rewrite Hwq in Hb0. now apply (c_work _ C).
  - intros b0 Hb0. rewrite Hdq in Hb0. apply list_elem_of_delete_inv in Hb0.
    rewrite (refs_moved_engine _ _ _ _ _ Hm). now apply (c_done _ C).
Qed.

Lemma jobs_Wrap (osrm : OSRM) (w : World) : jobs (Wrap osrm w) = jobs w.
Proof. reflexivity. Qed.

Lemma consistent_Wrap (osrm : OSRM) (w : World) :
  consistent w -> consistent (Wrap osrm w).
Proof.
  intros C.
  assert (Hother : forall e, is_Some (engines w !! e) ->
            engines (Wrap osrm w) !! e = engines w !! e).
  { intros e He. simpl. rewrite lookup_insert_ne; [reflexivity|].
    apply (c_fresh _ C) in He. lia. }
  split; try (apply C).
  - intros j e Hin. rewrite jobs_Wrap in Hin. pose proof (c_alive _ C _ _ Hin) as Ha.
    now rewrite (Hother _ Ha).
  - intros e He. simpl in *. destruct (decide (next_engine w = e)) as [<- | Hne]; [lia|].
    rewrite lookup_insert_ne in He by exact Hne. apply (c_fresh _ C) in He. lia.
  - intros e. unfold in_flight_on. rewrite jobs_Wrap. fold (on_engine e (jobs w)).
    unfold refs_of. simpl. destruct (decide (next_engine w = e)) as [<- | Hne].
    + rewrite lookup_insert_eq. simpl. rewrite on_engine_absent; [lia|].
      intros j Hin. apply (c_alive _ C), (c_fresh _ C) in Hin. lia.
    + rewrite lookup_insert_ne by exact Hne. apply (c_refs _ C e).
  - intros b Hb. destruct (c_done _ C b Hb) as (o & Ho & Hans).
    exists o. split; [|exact Hans]. unfold engine_of in *.
    rewrite Hother; [exact Ho|]. destruct (engines w !! machine b); [eauto | discriminate].
Qed.

Lemma New_world (w : World) (c : bool) (args : list Value) :
  (New w c args).1 = w \/ exists osrm, (New w c args).1 = Wrap osrm w.
Proof.
  unfold New. destruct c; simpl; [|now left].
  destruct (length args =? 1)%nat; [destruct (IsString (arg args 0))|]; simpl;
    try (now left); unfold construct;
    match goal with |- context [OSRM_ctor ?p ?s] => destruct (OSRM_ctor p s) end;
    simpl; eauto.
Qed.

Lemma method_world (op : Operation) (w w' : World) (this : nat)
  (args : list Value) (r : Completion unit) :
  method op w this args = (w', r) ->
  w' = w \/ exists p, Run w this args p = (w', Normal ()).
Proof.
  unfold method. destruct (build op args) as [p | e |]; [| intros [= <- _]; now left ..].
  intros HR. destruct r as [[] | e |].
  - right. eauto.
  - left. now apply Run_Throw in HR.
  - left. unfold Run in HR.
    destruct (arg args (length args - 1)); try (now injection HR).
    destruct (engines w !! this); now injection HR.
Qed.

Lemma perform_consistent (a : Action) (w w' : World) :
  consistent w -> perform a w = Normal w' -> consistent w'.
Proof.
  intros C Hp. destruct a as [i | i | c args | op this args]; simpl in Hp.
  - eapply consistent_work; eauto.
  - eapply consistent_after; eauto.
  - injection Hp as <-. destruct (New_world w c args) as [-> | [osrm ->]];
      [exact C | now apply consistent_Wrap].
  - destruct (method op w this args) as [w'' r] eqn:Hm.
    assert (w'' = w') as -> by (destruct r; congruence).
    apply method_world in Hm as [-> | [p HR]]; [exact C|].
    eapply consistent_Run; eauto.
Qed.

Lemma perform_all_consistent (l : list Action) (w w' : World) :
  consistent w -> perform_all l w = Normal w' -> consistent w'.
Proof.
  revert w. induction l as [|a l IH]; simpl; intros w C Hp.
  - now injection Hp as <-.
  - apply bind_Normal in Hp as (w1 & H1 & H2).
    eapply IH; [|exact H2]. eapply perform_consistent; eauto.
Qed.

Lemma reachable_consistent (history : list Action) (w : World) :
  perform_all history initial = Normal w -> consistent w.
Proof. apply perform_all_consistent, consistent_initial. Qed.


(** **** References not held by jobs *)

Lemma perform_idle (a : Action) (w w' : World) (e : nat) :
  consistent w -> perform a w = Normal w' -> is_Some (engines w !! e) ->
  idle e w' = idle e w /\ is_Some (engines w' !! e).
Proof.
  intros C Hp He. unfold idle. rewrite !in_flight_on_jobs.
  destruct a as [i | i | c args | op this args]; simpl in Hp.
  - rewrite (jobs_work _ _ _ Hp).
    apply run_work_Normal in Hp as (b & b' & o & _ & _ & _ & _ & _ & _ & Heq & _).
    unfold refs_of. now rewrite Heq.
  - destruct (jobs_after _ _ _ Hp) as (b & Hb & Hj). rewrite Hj, on_engine_cons.
    apply run_after_Normal in Hp as (b0 & Hb0 & Halive & _ & Hm & _).
    rewrite Hb in Hb0. injection Hb0 as <-.
    rewrite (refs_moved_refs _ _ _ _ _ Hm Halive). simpl.
    split; [|now apply (refs_moved_alive _ _ _ _ _ Hm)].
    same_engine_or_not e (machine b).
  - injection Hp as <-. destruct (New_world w c args) as [-> | [osrm ->]]; [auto|].
    rewrite jobs_Wrap. unfold refs_of. simpl.
    rewrite lookup_insert_ne; [auto|]. apply (c_fresh _ C) in He. lia.
  - destruct (method op w this args) as [w'' r] eqn:Hm.
    assert (w'' = w') as -> by (destruct r; congruence).
    apply method_world in Hm as [-> | [p HR]]; [auto|].
    rewrite (jobs_Run _ _ _ _ _ HR), on_engine_cons. simpl.
    apply Run_Normal in HR as (fn & _ & Hthis & Hm & _).
    rewrite (refs_moved_refs _ _ _ _ _ Hm Hthis).
    split; [|now apply (refs_moved_alive _ _ _ _ _ Hm)].
    same_engine_or_not e this.
Qed.

Lemma perform_all_idle (l : list Action) (w w' : World) (e : nat) :
  consistent w -> perform_all l w = Normal w' -> is_Some (engines w !! e) ->
  idle e w' = idle e w /\ is_Some (engines w' !! e).
Proof.
  revert w. induction l as [|a l IH]; simpl; intros w C Hp He.
  - injection Hp as <-. auto.
  - apply bind_Normal in Hp as (w1 & H1 & H2).
    destruct (perform_idle _ _ _ _ C H1 He) as [Hi He1].
    destruct (IH w1 (perform_consistent _ _ _ C H1) H2 He1) as [Hi' He'].
    split; [congruence | exact He'].
Qed.

Lemma perform_next_request (a : Action) (w w' : World) :
  perform a w = Normal w' -> (next_request w <= next_request w')%nat.
Proof.
  intros Hp. destruct a as [i | i | c args | op this args]; simpl in Hp.
  - apply run_work_Normal in Hp as (b & b' & o &_&_&_&_&_&_&_&_&_&_& Hn & _). lia.
  - apply run_after_Normal in Hp as (b &_&_&_&_&_&_&_& Hn & _). lia.
  - injection Hp as <-. destruct (New_world w c args) as [-> | [osrm ->]];
      simpl; lia.
  - destruct (method op w this args) as [w'' r] eqn:Hm.
    assert (w'' = w') as -> by (destruct r; congruence).
    apply method_world in Hm as [-> | [p HR]]; [lia|].
    apply Run_Normal in HR as (fn &_&_&_&_&_&_& Hn & _). lia.
Qed.

Lemma perform_all_next_request (l : list Action) (w w' : World) :
  perform_all l w = Normal w' -> (next_request w <= next_request w')%nat.
Proof.
  revert w. induction l as [|a l IH]; simpl; intros w Hp.
  - injection Hp as <-. lia.
  - apply bind_Normal in Hp as (w1 & H1 & H2).
    apply perform_next_request in H1. apply IH in H2. lia.
Qed.

(** **** Progress: the loop never gets stuck *)

Lemma work_progress (w : World) (i : nat) (b : RunQueryBaton) :
  consistent w -> work_queue w !! i = Some b ->
  exists w', run_work i w = Normal w'.
Proof.
  intros C Hb. unfold run_work. rewrite Hb. simpl. unfold AsyncRun.
  assert (Ha : is_Some (engines w !! machine b)).
  { apply (c_alive _ C (request b)). rewrite jobs_queues. apply elem_of_app. left.
    apply list_elem_of_fmap. exists b. split; [reflexivity|].
    eapply list_elem_of_lookup_2, Hb. }
  destruct Ha as [o ->]. destruct (RunQuery _ _); simpl; eauto.
Qed.

Lemma after_progress (w : World) (i : nat) (b : RunQueryBaton) :
  consistent w -> done_queue w !! i = Some b ->
  exists w', run_after i w = Normal w'.
Proof.
  intros C Hb. unfold run_after. rewrite Hb. simpl. unfold AfterRun, Unref.
  assert (Hin : job_of b ∈ jobs w).
  { rewrite jobs_queues. apply elem_of_app. right.
    apply list_elem_of_fmap. exists b. split; [reflexivity|].
    eapply list_elem_of_lookup_2, Hb. }
  pose proof (c_alive _ C _ _ Hin) as [o Ho].
  pose proof (c_refs _ C (machine b)) as Hr.
  pose proof (on_engine_elem _ _ _ Hin) as Hone.
  rewrite in_flight_on_jobs in Hr. unfold refs_of in Hr. rewrite Ho in Hr.
  destruct (callback_throws _ _); simpl; rewrite Ho;
    (destruct (Z.ltb_spec 0 (refs_ o)); [eauto | lia]).
Qed.

Lemma run_loop_drains (fuel : nat) (w : World) :
  consistent w ->
  (2 * length (work_queue w) + length (done_queue w) <= fuel)%nat ->
  exists w3 steps,
    run_loop fuel w = Normal w3 /\ quiescent w3 /\
    perform_all steps w = Normal w3.
Proof.
  revert w. induction fuel as [|fuel IH]; intros w C Hfuel.
  - exists w, []. destruct (work_queue w) eqn:Hw, (done_queue w) eqn:Hd;
      simpl in Hfuel; try lia.
    unfold quiescent, in_flight. rewrite Hw, Hd. auto.
  - simpl. destruct (done_queue w) as [|b dq] eqn:Hd.
    + destruct (work_queue w) as [|b wq] eqn:Hw.
      * exists w, []. unfold quiescent, in_flight. rewrite Hw, Hd. auto.
      * destruct (work_progress w 0 b C) as [w' Hw']; [now rewrite Hw|].
        rewrite Hw'. simpl.
        pose proof (consistent_work _ _ _ C Hw') as C'.
        apply run_work_Normal in Hw' as Hx.
        destruct Hx as (b0 & b' & o &_&_&_&_&_&_&_& Hwq & Hdq & _).
        destruct (IH w' C') as (w3 & steps & Hl & Hq & Hs).
        { rewrite Hwq, Hdq, Hw, Hd. simpl in *. lia. }
        exists w3, (Work 0 :: steps). simpl. rewrite Hw'. auto.
    + destruct (after_progress w 0 b C) as [w' Hw']; [now rewrite Hd|].
      rewrite Hw'. simpl.
      pose proof (consistent_after _ _ _ C Hw') as C'.
      apply run_after_Normal in Hw' as Hx.
      destruct Hx as (b0 &_&_&_&_& Hwq & Hdq & _).
      destruct (IH w' C') as (w3 & steps & Hl & Hq & Hs).
      { rewrite Hwq, Hdq, Hd. simpl in *. lia. }
      exists w3, (After 0 :: steps). simpl. rewrite Hw'. auto.
Qed.

Lemma quiescent_not_pending (j : nat) (w : World) : quiescent w -> ~ pending j w.
Proof. unfold quiescent, pending, jobs. intros ->. simpl. apply not_elem_of_nil. Qed.

Lemma quiescent_in_flight_on (e : nat) (w : World) :
  quiescent w -> in_flight_on e w = 0.
Proof. unfold quiescent, in_flight_on, jobs. now intros ->. Qed.

Lemma method_Normal (op : Operation) (w w' : World) (this : nat) (args : list Value) :
  method op w this args = (w', Normal ()) ->
  exists p, build op args = Normal p /\ Run w this args p = (w', Normal ()).
Proof.
  unfold method. destruct (build op args) as [p | e |]; [eauto | discriminate..].
Qed.

Lemma c_str_textual (s : string) : textual s = true -> c_str s = s.
Proof.
  induction s as [|c s IH]; simpl; [reflexivity|].
  destruct (Ascii.eqb c Ascii.zero); simpl; [discriminate|].
  intros Ht. now rewrite IH.
Qed.

Lemma c_str_idempotent (s : string) : c_str (c_str s) = c_str s.
Proof.
  induction s as [|c s IH]; simpl; [reflexivity|].
  destruct (Ascii.eqb c Ascii.zero) eqn:Hc; simpl; [reflexivity|].
  now rewrite Hc, IH.
Qed.


(** **** What a job keeps from submission to completion *)

Lemma tickets_queues (w : World) :
  tickets w = (ticket <$> work_queue w) ++ (ticket <$> done_queue w).
Proof. unfold tickets, in_flight. apply fmap_app. Qed.

Lemma ticket_job (b : RunQueryBaton) (w : World) :
  ticket b ∈ tickets w -> job_of b ∈ jobs w.
Proof.
  unfold tickets, jobs. intros Hin.
  apply list_elem_of_fmap in Hin as (b' & Heq & Hin).
  apply list_elem_of_fmap. exists b'. split; [|exact Hin].
  unfold ticket in Heq. unfold job_of. congruence.
Qed.

Lemma tickets_delete (l : list RunQueryBaton) (i : nat) (b : RunQueryBaton) :
  l !! i = Some b -> ticket <$> l ≡ₚ ticket b :: (ticket <$> delete i l).
Proof. intros Hi. now rewrite (delete_Permutation l i b Hi) at 1. Qed.

(** A step adds at most the ticket of a new request and changes no
    ticket. *)
Lemma perform_tickets (a : Action) (w w' : World)
  (t : nat * nat * RouteParameters * nat) :
  perform a w = Normal w' -> t ∈ tickets w' ->
  t ∈ tickets w \/ (next_request w <= t.1.1.1)%nat.
Proof.
  intros Hp Hin. destruct a as [i | i | c args | op this args]; simpl in Hp.
  - left. apply run_work_Normal in Hp
      as (b & b' & o & Hb & _ & Hj & Hcb & Hpa & _ & _ & Hwq & Hdq & _).
    assert (Ht : ticket b' = ticket b).
    { unfold ticket. unfold job_of in Hj. congruence. }
    rewrite tickets_queues, Hwq, Hdq, fmap_app in Hin. simpl in Hin. rewrite Ht in Hin.
    rewrite tickets_queues, (tickets_delete _ _ _ Hb).
    revert Hin. rewrite !elem_of_app, !elem_of_cons, elem_of_nil. tauto.
  - left. apply run_after_Normal in Hp as (b & Hb & _ & _ & _ & Hwq & Hdq & _).
    rewrite tickets_queues, Hwq, Hdq in Hin.
    rewrite tickets_queues, (tickets_delete _ _ _ Hb).
    revert Hin. rewrite !elem_of_app, !elem_of_cons. tauto.
  - left. injection Hp as <-.
    destruct (New_world w c args) as [Hw | [osrm Hw]]; rewrite Hw in Hin; exact Hin.
  - destruct (method op w this args) as [w'' r] eqn:Hm.
    assert (w'' = w') as -> by (destruct r; congruence).
    apply method_world in Hm as [-> | [p HR]]; [now left|].
    apply Run_Normal in HR as (fn & _ & _ & _ & Hwq & Hdq & _).
    rewrite tickets_queues, Hwq, Hdq, fmap_app in Hin. simpl in Hin.
    rewrite tickets_queues.
    revert Hin. rewrite !elem_of_app, !elem_of_cons, elem_of_nil.
    intros [[Hin | [-> | []]] | Hin]; [tauto | right; simpl; lia | tauto].
Qed.

Lemma perform_all_tickets (l : list Action) (w w' : World)
  (t : nat * nat * RouteParameters * nat) :
  perform_all l w = Normal w' -> t ∈ tickets w' ->
  t ∈ tickets w \/ (next_request w <= t.1.1.1)%nat.
Proof.
  revert w. induction l as [|a l IH]; simpl; intros w Hp Hin.
  - injection Hp as <-. now left.
  - apply bind_Normal in Hp as (w1 & H1 & H2).
    destruct (IH _ H2 Hin) as [Hin1 | Hnew].
    + exact (perform_tickets _ _ _ _ H1 Hin1).
    + right. apply perform_next_request in H1. lia.
Qed.

(** The engine behind a handle never changes. *)
Lemma perform_engine_of (a : Action) (w w' : World) (e : nat) :
  consistent w -> perform a w = Normal w' -> is_Some (engines w !! e) ->
  engine_of w' e = engine_of w e.
Proof.
  intros C Hp He. destruct a as [i | i | c args | op this args]; simpl in Hp.
  - apply run_work_Normal in Hp as (b & b' & o &_&_&_&_&_&_& Heq & _).
    unfold engine_of. now rewrite Heq.
  - apply run_after_Normal in Hp as (b & _ & _ & _ & Hm & _).
    exact (refs_moved_engine _ _ _ _ _ Hm).
  - injection Hp as <-. destruct (New_world w c args) as [-> | [osrm ->]]; [reflexivity|].
    unfold engine_of. simpl. rewrite lookup_insert_ne; [reflexivity|].
    apply (c_fresh _ C) in He. lia.
  - destruct (method op w this args) as [w'' r] eqn:Hm.
    assert (w'' = w') as -> by (destruct r; congruence).
    apply method_world in Hm as [-> | [p HR]]; [reflexivity|].
    apply Run_Normal in HR as (fn & _ & _ & Hm & _).
    exact (refs_moved_engine _ _ _ _ _ Hm).
Qed.

Lemma perform_all_engine_of (l : list Action) (w w' : World) (e : nat) :
  consistent w -> perform_all l w = Normal w' -> is_Some (engines w !! e) ->
  engine_of w' e = engine_of w e.
Proof.
  revert w. induction l as [|a l IH]; simpl; intros w C Hp He.
  - now injection Hp as <-.
  - apply bind_Normal in Hp as (w1 & H1 & H2).
    rewrite (IH w1 (perform_consistent _ _ _ C H1) H2).
    + exact (perform_engine_of _ _ _ _ C H1 He).
    + exact (proj2 (perform_idle _ _ _ _ C H1 He)).
Qed.

(** A baton in flight later on that carries the request of a submission
    is the baton of that submission: same engine, parameters and
    callback. *)
Lemma submitted_ticket (w w1 w2 : World) (this : nat) (args : list Value)
  (p : RouteParameters) (future : list Action) (closure : RunQueryBaton) :
  consistent w -> Run w this args p = (w1, Normal ()) ->
  perform_all future w1 = Normal w2 ->
  closure ∈ in_flight w2 -> request closure = next_request w ->
  machine closure = this /\ params closure = p /\
  arg args (length args - 1) = VFunction (cb closure).
Proof.
  intros C HR Hfut Hin Hreq.
  assert (Ht : ticket closure ∈ tickets w2) by now apply list_elem_of_fmap_2.
  apply Run_Normal in HR as (fn & Hfn & _ & _ & Hwq & Hdq & _ & Hn & _).
  destruct (perform_all_tickets _ _ _ _ Hfut Ht) as [Ht1 | Hnew];
    [|simpl in Hnew; lia].
  rewrite tickets_queues, Hwq, Hdq, fmap_app in Ht1. simpl in Ht1.
  revert Ht1. rewrite !elem_of_app, !elem_of_cons, elem_of_nil.
  intros [[Hold | [Heq | []]] | Hold].
  - exfalso. assert (Hj : job_of closure ∈ jobs w).
    { apply ticket_job. rewrite tickets_queues. apply elem_of_app. now left. }
    assert (Hpend : pending (request closure) w).
    { unfold pending. apply list_elem_of_fmap. now exists (job_of closure). }
    apply (c_bound _ C) in Hpend. lia.
  - unfold ticket in Heq. injection Heq as _ -> -> ->. auto.
  - exfalso. assert (Hj : job_of closure ∈ jobs w).
    { apply ticket_job. rewrite tickets_queues. apply elem_of_app. now right. }
    assert (Hpend : pending (request closure) w).
    { unfold pending. apply list_elem_of_fmap. now exists (job_of closure). }
    apply (c_bound _ C) in Hpend. lia.
Qed.

(** **** Exactly one completion per job *)

(** C1. Take any world the binding can reach and any call of one of
    the four methods that submits a job. At submission the engine's
    [refs_] goes up by one and the job is in flight with no invocation
    of its callback. Whatever happens afterwards: the callback of the
    job has been invoked 0 times while the job is in flight and exactly
    once when it no longer is; the after-work step of the job is the
    step that invokes it and takes [refs_] down by one; the engine's
    [refs_] less the jobs in flight on it stays what it was before the
    submission, so [refs_] is what it was whenever as many jobs are in
    flight on the engine; and the loop always finishes what is in flight, after
    which the callback has been invoked exactly once and [refs_] is back
    to the references that no job accounted for. *)
Theorem job_completes_exactly_once (history : list Action) (op : Operation)
  (w w1 : World) (this : nat) (args : list Value) :
  perform_all history initial = Normal w ->
  method op w this args = (w1, Normal ()) ->
  let j := next_request w in
  (refs_of w1 this = refs_of w this + 1 /\
   in_flight_on this w1 = in_flight_on this w + 1 /\
   pending j w1 /\ invocations j (trace w1) = 0%nat) /\
  forall (future : list Action) (w2 : World),
    perform_all future w1 = Normal w2 ->
    (pending j w2 -> invocations j (trace w2) = 0%nat) /\
    (~ pending j w2 -> invocations j (trace w2) = 1%nat) /\
    (forall i closure w2',
       done_queue w2 !! i = Some closure -> request closure = j ->
       run_after i w2 = Normal w2' ->
       invocations j (trace w2') = 1%nat /\ ~ pending j w2' /\
       refs_of w2' this = refs_of w2 this - 1) /\
    refs_of w2 this - in_flight_on this w2 = refs_of w this - in_flight_on this w /\
    (in_flight_on this w2 = in_flight_on this w -> refs_of w2 this = refs_of w this) /\
    exists w3,
      run_loop (2 * length (work_queue w2) + length (done_queue w2)) w2 = Normal w3 /\
      quiescent w3 /\
      invocations j (trace w3) = 1%nat /\
      refs_of w3 this = refs_of w this - in_flight_on this w.
Proof.
  intros Hreach Hm j.
  pose proof (reachable_consistent _ _ Hreach) as C.
  apply method_Normal in Hm as (p & _ & HR).
  pose proof (consistent_Run _ _ _ _ _ C HR) as C1.
  pose proof (jobs_Run _ _ _ _ _ HR) as Hj.
  pose proof HR as HR'.
  apply Run_Normal in HR' as (fn & _ & Hthis & Hmv & _ & _ & _ & Hn & _).
  assert (Hp1 : pending j w1).
  { unfold pending. rewrite Hj. simpl. now left. }
  assert (Hrefs : refs_of w1 this = refs_of w this + 1).
  { rewrite (refs_moved_refs _ _ _ _ _ Hmv Hthis). now rewrite decide_True. }
  assert (Hfl : in_flight_on this w1 = in_flight_on this w + 1).
  { rewrite !in_flight_on_jobs, Hj, on_engine_cons. simpl.
    rewrite decide_True by reflexivity. lia. }
  assert (Hthis1 : is_Some (engines w1 !! this))
    by now apply (refs_moved_alive _ _ _ _ _ Hmv).
  split.
  { repeat split; auto. now apply (c_pending _ C1). }
  intros future w2 Hfut.
  pose proof (perform_all_consistent _ _ _ C1 Hfut) as C2.
  pose proof (perform_all_next_request _ _ _ Hfut) as Hmono.
  destruct (perform_all_idle _ _ _ this C1 Hfut Hthis1) as [Hidle Hthis2].
  assert (Hidle2 : refs_of w2 this - in_flight_on this w2 =
                   refs_of w this - in_flight_on this w).
  { unfold idle in Hidle. lia. }
  split; [apply (c_pending _ C2)|].
  split; [apply (c_released _ C2); fold j in Hn; lia|].
  split.
  { intros i closure w2' Hi Hreq Hafter.
    pose proof (consistent_after _ _ _ C2 Hafter) as C2'.
    destruct (submitted_ticket w w1 w2 this args p future closure C HR Hfut)
      as (Hmach & _ & _); [|exact Hreq|].
    { unfold in_flight. apply elem_of_app. right. eapply list_elem_of_lookup_2, Hi. }
    destruct (jobs_after _ _ _ Hafter) as (b & Hb & Hperm).
    rewrite Hi in Hb. injection Hb as <-.
    assert (Hnp : ~ pending j w2').
    { pose proof (c_nodup _ C2) as Hnd. rewrite Hperm in Hnd. simpl in Hnd.
      apply NoDup_cons in Hnd as [Hfresh _]. now rewrite Hreq in Hfresh. }
    split; [|split; [exact Hnp|]].
    - apply (c_released _ C2'); [|exact Hnp].
      apply run_after_Normal in Hafter as (b & _ & _ & _ & _ & _ & _ & _ & Hn' & _).
      fold j in Hn. lia.
    - apply run_after_Normal in Hafter as (b & Hb & Halive & _ & Hmoved & _).
      rewrite Hi in Hb. injection Hb as <-.
      rewrite (refs_moved_refs _ _ _ _ _ Hmoved Halive).
      rewrite decide_True by (symmetry; exact Hmach). lia. }
  split; [exact Hidle2|].
  split; [intros Hsame; lia|].
  destruct (run_loop_drains _ w2 C2 (Nat.le_refl _)) as (w3 & steps & Hl & Hq & Hs).
  exists w3. split; [exact Hl|]. split; [exact Hq|].
  pose proof (perform_all_consistent _ _ _ C2 Hs) as C3.
  pose proof (perform_all_next_request _ _ _ Hs) as Hmono3.
  destruct (perform_all_idle _ _ _ this C2 Hs Hthis2) as [Hidle3 _].
  split.
  - apply (c_released _ C3); [fold j in Hn; lia|]. now apply quiescent_not_pending.
  - unfold idle in Hidle3. rewrite (quiescent_in_flight_on _ _ Hq) in Hidle3. lia.
Qed.

(** What the after-work step of a finished baton delivers, in any
    consistent world. *)
Lemma after_work_delivers (w : World) (i : nat) (closure : RunQueryBaton) :
  consistent w ->
  done_queue w !! i = Some closure ->
  exists w' osrm argv,
    run_after i w = Normal w' /\
    engine_of w (machine closure) = Some osrm /\
    trace w' = trace w ++
      Invoke (request closure) (cb closure) argv ::
      (if callback_throws (cb closure) argv
       then [FatalException (request closure)] else []) /\
    match RunQuery osrm (params closure) with
    | Reply content => argv = [VNull; VString (c_str content)]
    | Raise what => argv = [VError (c_str what)]
    end.
Proof.
  intros C Hi.
  destruct (after_progress _ _ _ C Hi) as [w' Hw'].
  destruct (c_done _ C closure) as (osrm & Ho & Hans);
    [eapply list_elem_of_lookup_2, Hi|].
  exists w', osrm, (callback_argv closure). split; [exact Hw'|].
  split; [exact Ho|].
  apply run_after_Normal in Hw' as (b & Hb & _ & _ & _ & _ & _ & Ht & _).
  rewrite Hi in Hb. injection Hb as <-. split; [exact Ht|].
  unfold answered in Hans. unfold callback_argv.
  destruct (RunQuery osrm (params closure)) as [content | what];
    destruct Hans as [-> ->]; [reflexivity|].
  now rewrite c_str_idempotent.
Qed.

(** C2. Take any reachable world, any call of one of the four methods
    that submits a job, and any later world in which the job's work is
    done. Then the after-work step of the job runs and invokes, once,
    the function that was passed as the last argument of the call, with
    arguments fixed by what the query did on the parameters built from
    the call. If the query returned a reply, the arguments are [null]
    and the reply's content read as a C string, which is the content
    itself whenever it is text. If the query raised, the only argument
    is the error made from the exception's message, which is the message
    itself whenever it is text. *)
Theorem completion_callback_contract (history : list Action) (op : Operation)
  (w w1 : World) (this : nat) (args : list Value)
  (future : list Action) (w2 : World) (i : nat) (closure : RunQueryBaton) :
  perform_all history initial = Normal w ->
  method op w this args = (w1, Normal ()) ->
  perform_all future w1 = Normal w2 ->
  done_queue w2 !! i = Some closure ->
  request closure = next_request w ->
  exists p fn osrm w' argv,
    build op args = Normal p /\
    arg args (length args - 1) = VFunction fn /\
    engine_of w this = Some osrm /\
    run_after i w2 = Normal w' /\
    trace w' = trace w2 ++
      Invoke (next_request w) fn argv ::
      (if callback_throws fn argv then [FatalException (next_request w)] else []) /\
    match RunQuery osrm p with
    | Reply content =>
        argv = [VNull; VString (c_str content)] /\
        (textual content = true -> argv = [VNull; VString content])
    | Raise what =>
        argv = [VError (c_str what)] /\
        (textual what = true -> argv = [VError what])
    end.
Proof.
  intros Hreach Hm Hfut Hi Hreq.
  pose proof (reachable_consistent _ _ Hreach) as C.
  apply method_Normal in Hm as (p & Hbuild & HR).
  pose proof (consistent_Run _ _ _ _ _ C HR) as C1.
  pose proof (perform_all_consistent _ _ _ C1 Hfut) as C2.
  destruct (submitted_ticket w w1 w2 this args p future closure C HR Hfut)
    as (Hmach & Hpar & Hfn); [|exact Hreq|].
  { unfold in_flight. apply elem_of_app. right. eapply list_elem_of_lookup_2, Hi. }
  destruct (after_work_delivers w2 i closure C2 Hi)
    as (w' & osrm & argv & Hrun & Ho & Ht & Hq).
  pose proof HR as HR'.
  apply Run_Normal in HR' as (fn' & _ & Hthis & Hmv & _).
  assert (Ho' : engine_of w this = Some osrm).
  { rewrite <- (refs_moved_engine _ _ _ _ this Hmv).
    rewrite <- (perform_all_engine_of _ _ _ this C1 Hfut).
    - now rewrite <- Hmach.
    - now apply (refs_moved_alive _ _ _ _ _ Hmv). }
  exists p, (cb closure), osrm, w', argv.
  rewrite Hreq in Ht. rewrite Hpar in Hq.
  repeat (split; [assumption|]).
  destruct (RunQuery osrm p) as [content | what]; subst argv;
    (split; [reflexivity|]); intros Htext; now rewrite (c_str_textual _ Htext).
Qed.

End Lifecycle.


(* ===================================================================== *)
(** ** More about the four methods                                       *)
(* ===================================================================== *)

Section Methods.
Context `{V8.Runtime} `{Library} {cxx : Platform}.
Import V8 Engine.

Lemma point_parameters_Normal (s : string) (args : list Value) (p : RouteParameters) :
  point_parameters s args = Normal p ->
  (2 <= length args)%nat /\ IsArray (arg args 0) = true /\
  Length (arg args 0) = 2%nat /\
  p = coordinates_emplace_back (scale_pair (arg args 0))
        (set_service s new_RouteParameters).
Proof.
  unfold point_parameters.
  destruct (Nat.ltb_spec (length args) 2) as [|Hlen]; [discriminate|].
  destruct (IsArray (arg args 0)); cbn [negb]; [|discriminate].
  destruct (Nat.eqb_spec (Length (arg args 0)) 2) as [Hl|]; cbn [negb]; [|discriminate].
  intros [= <-]. auto.
Qed.

Lemma build_point (op : Operation) :
  op = locate \/ op = nearest -> build op = point_parameters (service_of op).
Proof. intros [-> | ->]; reflexivity. Qed.

(** X1. [locate] and [nearest], called with at least two arguments
    whose first is not an array or is an array whose length is not 2,
    fail at once with "first argument must be an array of lat, long";
    nothing is queued. *)
Theorem point_argument_checked (op : Operation) (w : World) (this : nat)
  (args : list Value) :
  op = locate \/ op = nearest ->
  (2 <= length args)%nat ->
  IsArray (arg args 0) = false \/ Length (arg args 0) <> 2%nat ->
  method op w this args =
    (w, Throw (Error "first argument must be an array of lat, long")).
Proof.
  intros Hop Hlen Hbad. apply method_build_Throw.
  rewrite (build_point op Hop). unfold point_parameters.
  destruct (Nat.ltb_spec (length args) 2); [lia|].
  destruct (IsArray (arg args 0)); cbn [negb]; [|reflexivity].
  destruct (Nat.eqb_spec (Length (arg args 0)) 2); cbn [negb]; [|reflexivity].
  destruct Hbad; [discriminate | contradiction].
Qed.

(** X2. The parameters [locate] and [nearest] build hold exactly one
    coordinate, the converted first argument, no hints, the service
    name of the method, and in every other field what the library's
    default constructor put there. On the same arguments the two
    methods build the same parameters up to the service name. *)
Theorem point_parameters_shape (op : Operation) (args : list Value)
  (p : RouteParameters) :
  op = locate \/ op = nearest ->
  build op args = Normal p ->
  coordinates p = [scale_pair (arg args 0)] /\
  hints p = [] /\ service p = service_of op /\
  zoom_level p = zoom_level RouteParameters_ctor /\
  print_instructions p = print_instructions RouteParameters_ctor /\
  alternate_route p = alternate_route RouteParameters_ctor /\
  geometry p = geometry RouteParameters_ctor /\
  compression p = compression RouteParameters_ctor /\
  check_sum p = check_sum RouteParameters_ctor /\
  output_format p = output_format RouteParameters_ctor /\
  jsonp_parameter p = jsonp_parameter RouteParameters_ctor /\
  language p = language RouteParameters_ctor /\
  locate_parameters args = Normal (set_service "locate" p) /\
  nearest_parameters args = Normal (set_service "nearest" p).
Proof.
  intros Hop Hb. rewrite (build_point op Hop) in Hb.
  pose proof Hb as Hb'.
  apply point_parameters_Normal in Hb' as (Hlen & Ha & Hl & ->).
  repeat (split; [reflexivity|]).
  unfold locate_parameters, nearest_parameters, point_parameters.
  destruct (Nat.ltb_spec (length args) 2); [lia|].
  rewrite Ha, Hl. split; reflexivity.
Qed.

(** **** Only the first and the last argument count *)

Lemma arg_first (first : Value) (rest : list Value) : arg (first :: rest) 0 = first.
Proof. reflexivity. Qed.

Lemma arg_last (first last : Value) (middle : list Value) :
  arg (first :: middle ++ [last]) (length (first :: middle ++ [last]) - 1) = last.
Proof.
  unfold arg. revert first. induction middle as [|m middle IH]; intros first;
    [reflexivity|].
  specialize (IH m). simpl in IH |- *. rewrite Nat.sub_0_r in IH. exact IH.
Qed.

Lemma build_first_argument (op : Operation) (first last : Value) (middle : list Value) :
  build op (first :: middle ++ [last]) = build op [first; last].
Proof.
  assert (Hlen : (length (first :: middle ++ [last]) <? 2)%nat = false).
  { apply Nat.ltb_ge. simpl. rewrite length_app. simpl. lia. }
  destruct op; simpl;
    unfold route_parameters, locate_parameters, nearest_parameters, point_parameters,
      table_parameters; rewrite Hlen, !arg_first; reflexivity.
Qed.

(** X3. Each method reads its first argument and takes its callback
    from the last one; whatever is passed in between changes nothing:
    the call behaves as the call with those two arguments alone. *)
Theorem middle_arguments_ignored (op : Operation) (w : World) (this : nat)
  (first last : Value) (middle : list Value) :
  method op w this (first :: middle ++ [last]) = method op w this [first; last].
Proof.
  unfold method. rewrite build_first_argument.
  destruct (build op [first; last]) as [p | e |]; try reflexivity.
  unfold Run. rewrite arg_last. reflexivity.
Qed.

(** **** What [route] and [table] build *)

Lemma route_options_keeps (obj : Value) (q : RouteParameters) :
  service (route_options obj q) = service q /\
  output_format (route_options obj q) = output_format q /\
  geometry (route_options obj q) = geometry q /\
  compression (route_options obj q) = compression q /\
  language (route_options obj q) = language q.
Proof.
  unfold route_options.
  destruct (Has obj "alternateRoute"), (Has obj "checksum"), (Has obj "zoomLevel"),
    (Has obj "printInstructions"), (Has obj "jsonpParameter"); simpl; repeat split.
Qed.

(** X4. Whatever the request says, the parameters [route] builds ask
    for the "viaroute" service with "json" output, geometry and
    compression on, and no language: no input field changes these. *)
Theorem route_fixed_fields (args : list Value) (p : RouteParameters) :
  route_parameters args = Normal p ->
  service p = "viaroute" /\ output_format p = "json" /\
  geometry p = true /\ compression p = true /\ language p = "".
Proof.
  intros Hr. apply route_parameters_Normal in Hr as (_ & _ & pc & Hc & Hh).
  apply route_coordinates_Normal in Hc as (Hc & _ & _).
  apply coordinates_loop_Normal in Hc as (Hoc & _ & _).
  apply route_hints_Normal in Hh as (Hoh & _ & _).
  destruct (route_options_keeps (arg args 0) pc) as (Es & Eo & Eg & Ec & El).
  destruct Hoc as (_ & _ & _ & Og & Oc & _ & Os & Oo & _ & Ol).
  destruct Hoh as (_ & _ & _ & Hg & Hc' & _ & Hs & Ho & _ & Hl).
  simpl in Og, Oc, Os, Oo, Ol.
  rewrite <- Hs, <- Ho, <- Hg, <- Hc', <- Hl, Es, Eo, Eg, Ec, El.
  rewrite <- Os, <- Oo, <- Og, <- Oc, <- Ol. repeat split.
Qed.

Lemma table_parameters_Normal (args : list Value) (p : RouteParameters) :
  table_parameters args = Normal p ->
  (2 <= length args)%nat /\
  exists props,
    arg args 0 = VObject props /\
    IsArray (Get (arg args 0) "coordinates") = true /\
    (Length (Get (arg args 0) "coordinates") <? 2)%nat = false /\
    coordinates_loop (elements (Get (arg args 0) "coordinates"))
      (set_service "table" new_RouteParameters) = Normal p.
Proof.
  intros Ht.
  assert (Hlen : (2 <= length args)%nat).
  { unfold table_parameters in Ht.
    destruct (Nat.ltb_spec (length args) 2); [discriminate | assumption]. }
  split; [exact Hlen|].
  destruct (IsObject (arg args 0)) eqn:Hobj.
  - rewrite (table_parameters_object args Hlen Hobj) in Ht. cbv zeta in Ht.
    destruct (IsArray (Get (arg args 0) "coordinates")) eqn:Harr;
      cbn [negb] in Ht; [|discriminate].
    destruct (Length (Get (arg args 0) "coordinates") <? 2)%nat eqn:Hl;
      [discriminate|].
    destruct (arg args 0) as [| | b | x | s | l | props | f | m]; try discriminate.
    exists props. auto.
  - exfalso. unfold table_parameters in Ht.
    destruct (Nat.ltb_spec (length args) 2); [lia|].
    destruct (arg args 0); discriminate.
Qed.

(** X5. The parameters [table] builds ask for the "table" service,
    carry no hints, and in every optional field hold what the
    library's default constructor put there: [table] reads nothing of
    the request but its coordinates. *)
Theorem table_parameters_shape (args : list Value) (p : RouteParameters) :
  table_parameters args = Normal p ->
  service p = "table" /\ hints p = [] /\
  zoom_level p = zoom_level RouteParameters_ctor /\
  print_instructions p = print_instructions RouteParameters_ctor /\
  alternate_route p = alternate_route RouteParameters_ctor /\
  geometry p = geometry RouteParameters_ctor /\
  compression p = compression RouteParameters_ctor /\
  check_sum p = check_sum RouteParameters_ctor /\
  output_format p = output_format RouteParameters_ctor /\
  jsonp_parameter p = jsonp_parameter RouteParameters_ctor /\
  language p = language RouteParameters_ctor.
Proof.
  intros Ht. apply table_parameters_Normal in Ht as (_ & props & _ & _ & _ & Hl).
  apply coordinates_loop_Normal in Hl as (Ho & Hh & _).
  destruct Ho as (Oz & Op & Oa & Og & Oc & Ok & Os & Oo & Oj & Ol).
  simpl in *. rewrite <- Os, <- Oz, <- Op, <- Oa, <- Og, <- Oc, <- Ok, <- Oo, <- Oj, <- Ol.
  rewrite Hh. repeat split.
Qed.


Lemma hints_loop_Throw (hs : list Value) (q : RouteParameters) (e : Exception) :
  hints_loop hs q = Throw e -> e = Error "hint must be null or string".
Proof.
  revert q. induction hs as [|h hs IH]; simpl; intros q; [discriminate|].
  destruct (IsString h); [apply IH|]. destruct (IsNull h); [apply IH|].
  now intros [= <-].
Qed.

(** **** First arguments that are not objects *)

(** X7. [route] answers a first argument that is not an object with
    the TypeError "two arguments required", however many arguments
    there are; its later test for a null or undefined object can then
    never succeed, and "first arg must be an object" is never raised. *)
Theorem route_first_argument (w : World) (this : nat) (args : list Value) :
  (IsObject (arg args 0) = false ->
   method route w this args = (w, Throw (TypeError "two arguments required"))) /\
  route_parameters args <> Throw (Error "first arg must be an object").
Proof.
  split.
  - intros Hobj. apply method_build_Throw. simpl. unfold route_parameters.
    destruct (length args <? 2)%nat; [reflexivity|]. now rewrite Hobj.
  - unfold route_parameters.
    destruct (length args <? 2)%nat; [discriminate|].
    destruct (IsObject (arg args 0)) eqn:Hobj; cbn [negb]; [|discriminate].
    rewrite (ToObject_IsObject _ Hobj). cbn [defined mbind Completion_bind].
    rewrite (ToObject_not_null _ _ (ToObject_IsObject _ Hobj)).
    intros Hthrow. apply bind_Throw in Hthrow as [Hc | (pc & _ & Hh)].
    + unfold route_coordinates in Hc.
      destruct (Has (arg args 0) "coordinates"); cbn [negb] in Hc; [|discriminate].
      destruct (IsArray _); cbn [negb] in Hc; [|discriminate].
      destruct (_ <? _)%nat; [discriminate|].
      apply coordinates_loop_Throw in Hc as [Hc _]. discriminate.
    + unfold route_hints in Hh. destruct (Has (arg args 0) "hints"); [|discriminate].
      destruct (IsArray _); cbn [negb] in Hh; [|discriminate].
      apply hints_loop_Throw in Hh. discriminate.
Qed.

(** X8. [table] has no object test: where [route] answers a boolean,
    a number or a string as first argument with "two arguments
    required", [table] wraps it into an object that has no coordinates
    and fails with "coordinates must be an array of (lat/long) pairs". *)
Theorem table_first_argument (w : World) (this : nat) (args : list Value) :
  (2 <= length args)%nat ->
  IsObject (arg args 0) = false ->
  IsNull (arg args 0) || IsUndefined (arg args 0) = false ->
  method table w this args =
    (w, Throw (Error "coordinates must be an array of (lat/long) pairs")) /\
  method route w this args = (w, Throw (TypeError "two arguments required")).
Proof.
  intros Hlen Hobj Hnull. split; apply method_build_Throw; simpl.
  - unfold table_parameters.
    destruct (Nat.ltb_spec (length args) 2); [lia|].
    destruct (arg args 0); try discriminate; reflexivity.
  - unfold route_parameters.
    destruct (Nat.ltb_spec (length args) 2); [lia|]. now rewrite Hobj.
Qed.

(** X9. On [null] or [undefined] as first argument [table] raises
    nothing and queues nothing: [ToObject] gives the empty handle, which
    the next line dereferences. *)
Theorem table_null_argument (w : World) (this : nat) (args : list Value) :
  (2 <= length args)%nat ->
  IsNull (arg args 0) || IsUndefined (arg args 0) = true ->
  method table w this args = (w, Fault).
Proof.
  intros Hlen Hnull. unfold method. simpl. unfold table_parameters.
  destruct (Nat.ltb_spec (length args) 2); [lia|].
  destruct (arg args 0); try discriminate; reflexivity.
Qed.

(** **** Every exception a method can raise *)





(** X11. In [route], a hints field that is present but is not an
    array ([null] and [undefined] included) is rejected with "hints must
    be an array of strings/null", once the coordinates have passed. *)
Theorem hints_must_be_array (w : World) (this : nat) (args : list Value)
  (props : list (string * Value)) (pc : RouteParameters) (h : Value) :
  (2 <= length args)%nat ->
  arg args 0 = VObject props ->
  route_coordinates (VObject props) (route_defaults new_RouteParameters) = Normal pc ->
  lookup_prop "hints" props = Some h ->
  IsArray h = false ->
  method route w this args =
    (w, Throw (Error "hints must be an array of strings/null")).
Proof.
  intros Hlen Ha Hc Hh Harr. apply method_build_Throw. simpl.
  rewrite (route_parameters_object args Hlen) by now rewrite Ha.
  rewrite Ha, Hc. cbn [mbind Completion_bind].
  unfold route_hints. simpl. rewrite Hh. simpl. now rewrite Harr.
Qed.

Lemma present_empty_value (v : Value) :
  IsNull v || IsUndefined v = true -> v = VNull \/ v = VUndefined.
Proof. destruct v; try discriminate; auto. Qed.

(** X12. An optional field of a [route] request that is present with
    the value [undefined] or [null] is coerced like any other value, it
    does not fall back to the default: [alternateRoute] then turns the
    alternate route off (the default is on), [zoomLevel] gives 0 (the
    default is 18), [checksum] gives 0 and [printInstructions] false. *)
Theorem undefined_option_overrides_default (args : list Value) (p : RouteParameters) :
  route_parameters args = Normal p ->
  let obj := arg args 0 in
  (present_but_empty obj "alternateRoute" -> alternate_route p = false) /\
  (present_but_empty obj "zoomLevel" -> zoom_level p = 0) /\
  (present_but_empty obj "checksum" -> check_sum p = 0) /\
  (present_but_empty obj "printInstructions" -> print_instructions p = false).
Proof.
  intros Hr obj.
  apply route_parameters_Normal in Hr as (_ & _ & pc & Hc & Hh). fold obj in Hc, Hh.
  apply route_hints_Normal in Hh as (Hoh & _ & _).
  destruct (route_options_fields obj pc) as (Ea & Ec & Ez & Ep & _).
  destruct Hoh as (Hz & Hp & Ha & _ & _ & Hcs & _).
  rewrite <- Ha, <- Hz, <- Hcs, <- Hp, Ea, Ez, Ec, Ep.
  repeat split; intros [Hhas [-> | ->]%present_empty_value]; rewrite Hhas;
    reflexivity.
Qed.

Lemma c_str_is_text (s : string) : textual (c_str s) = true.
Proof.
  induction s as [|c s IH]; simpl; [reflexivity|].
  destruct (Ascii.eqb c Ascii.zero) eqn:Hc; simpl; [reflexivity|].
  now rewrite Hc, IH.
Qed.

(** X13. No string that [route] stores in its parameters from the
    request holds a NUL character: every hint and the JSONP parameter
    are read through a C string, which ends at the first NUL. *)
Theorem stored_strings_are_text (args : list Value) (p : RouteParameters) :
  route_parameters args = Normal p ->
  Forall (fun h => textual h = true) (hints p) /\ textual (jsonp_parameter p) = true.
Proof.
  intros Hr. apply route_parameters_Normal in Hr as (_ & _ & pc & Hc & Hh).
  apply route_coordinates_Normal in Hc as (Hc & _ & _).
  apply coordinates_loop_Normal in Hc as (Hoc & Hhc & _).
  apply route_hints_Normal in Hh as (Hoh & _ & Hhh).
  destruct (route_options_fields (arg args 0) pc) as (_ & _ & _ & _ & Ej & Eh & _).
  destruct Hoc as (_ & _ & _ & _ & _ & _ & _ & _ & Oj & _).
  destruct Hoh as (_ & _ & _ & _ & _ & _ & _ & _ & Hj & _).
  simpl in Oj, Hhc. split.
  - rewrite Hhh, Eh, Hhc. simpl.
    destruct (Has (arg args 0) "hints"); [|constructor].
    apply Forall_fmap, Forall_forall. intros h _. simpl. unfold hint_of.
    destruct (IsString h); [|reflexivity]. unfold Utf8Value. apply c_str_is_text.
  - rewrite <- Hj, Ej. destruct (Has (arg args 0) "jsonpParameter").
    + unfold Utf8Value. apply c_str_is_text.
    + now rewrite <- Oj.
Qed.

(** **** The stored coordinate and the scaled number *)

(** Rounding toward zero is the only integer within one unit below
    the value in magnitude and of its sign. *)
Lemma round_toward_zero_unique (x : spec_float) (z : Z) :
  Z.abs (z * Double.den x) <= Z.abs (Double.num x) < Z.abs (z * Double.den x) + Double.den x ->
  0 <= z * Double.num x ->
  z = Double.round_toward_zero x.
Proof.
  intros Hb Hs. destruct (round_toward_zero_bounds x) as [Hb' Hs'].
  cbv zeta in Hb', Hs'.
  assert (Hd : 0 < Double.den x).
  { destruct x; simpl; first [lia | apply Z.pow_pos_nonneg; lia]. }
  set (n := Double.num x) in *. set (d := Double.den x) in *.
  set (q := Double.round_toward_zero x) in *.
  rewrite !Z.abs_mul, (Z.abs_eq d) in Hb, Hb' by lia.
  assert (Habs : Z.abs z = Z.abs q) by nia.
  destruct (Z.eq_dec n 0) as [Hn | Hn].
  - rewrite Hn in *. simpl in Hb, Hb'. nia.
  - nia.
Qed.

(** X14. Every stored component is an [int]. Where the scaled double
    is finite, the stored component is within one unit of it, not
    above it in magnitude and of its sign or zero, exactly when the
    truncation of the double fits in [int]; for the other doubles the
    stored value is the platform's and is only known to be an [int].
    With [num / den] the exact value of the double, within one unit
    reads [|z * den| <= |num| < |z * den| + den] and [0 <= z * num]. *)
Theorem stored_within_one_unit (v : Value) :
  let x := Double.mul (NumberValue v) COORDINATE_PRECISION in
  let z := scaled v in
  Double.INT_MIN <= z <= Double.INT_MAX /\
  (Double.is_finite x = true ->
   (Z.abs (z * Double.den x) <= Z.abs (Double.num x) < Z.abs (z * Double.den x) + Double.den x /\
    0 <= z * Double.num x) <->
   Double.int_range (Double.round_toward_zero x) = true).
Proof.
  intros x z. assert (Hz : z = to_int x) by reflexivity.
  clearbody z. subst z. split.
  - pose proof (to_int_range x) as Hr.
    unfold Double.int_range in Hr. apply andb_true_iff in Hr as [Hlo Hhi].
    apply Z.leb_le in Hlo, Hhi. auto.
  - intros Hf. rewrite <- (to_int_truncates x Hf). split.
    + intros [Hb Hs]. now apply round_toward_zero_unique.
    + intros ->. apply round_toward_zero_bounds.
Qed.

Lemma binary_round_aux_opp (sx : bool) (mx ex : Z) (lx : location) :
  binary_round_aux Double.prec Double.emax (negb sx) mx ex lx =
  SFopp (binary_round_aux Double.prec Double.emax sx mx ex lx).
Proof.
  unfold binary_round_aux.
  destruct (shr_fexp Double.prec Double.emax mx ex lx) as [mrs' e'].
  destruct (shr_fexp Double.prec Double.emax _ e' loc_Exact) as [mrs'' e''].
  destruct (shr_m mrs''); [reflexivity | | reflexivity].
  destruct (Z.leb e'' _); reflexivity.
Qed.

Lemma mul_opp (x y : spec_float) :
  Double.mul (SFopp x) y = SFopp (Double.mul x y).
Proof.
  unfold Double.mul.
  destruct x as [sx | sx | | sx mx ex], y as [sy | sy | | sy my ey]; simpl;
    try reflexivity; try (destruct sx, sy; reflexivity).
  replace (xorb (negb sx) sy) with (negb (xorb sx sy)) by (destruct sx, sy; reflexivity).
  apply binary_round_aux_opp.
Qed.

Lemma truncate_opp (x : spec_float) :
  Double.truncate (SFopp x) = Z.opp <$> Double.truncate x.
Proof.
  destruct x as [s | s | | s m e]; simpl; try reflexivity.
  f_equal. destruct s; simpl; lia.
Qed.

(** X15. Scaling is odd: when a number scales to [z], which is then
    what is stored for it, its negation scales to [- z] and [- z] is
    stored for it, except that the negation of the number that scales
    to [INT_MIN] has no [int] to go to. *)
Theorem scaling_is_odd (x : spec_float) (z : Z) :
  scale (VNumber x) = Some z ->
  scale (VNumber (SFopp x)) = (if Double.int_range (- z) then Some (- z) else None) /\
  scaled (VNumber x) = z /\
  (Double.int_range (- z) = true -> scaled (VNumber (SFopp x)) = - z).
Proof.
  intros Hs.
  assert (Hopp : scale (VNumber (SFopp x)) =
                 if Double.int_range (- z) then Some (- z) else None).
  { revert Hs. unfold scale. simpl. rewrite mul_opp. unfold Double.static_cast_int.
    rewrite truncate_opp.
    destruct (Double.truncate (Double.mul x COORDINATE_PRECISION)) as [t|]; simpl;
      [|discriminate].
    destruct (Double.int_range t); [|discriminate]. now intros [= <-]. }
  split; [exact Hopp|]. split; [now apply scaled_defined|].
  intros Hr. apply scaled_defined. now rewrite Hopp, Hr.
Qed.

End Methods.

(* ===================================================================== *)
(** ** More about engines, workers and the loop                          *)
(* ===================================================================== *)

Section Loop.
Context `{V8.Runtime} `{Library} {cxx : Platform}.
Import V8 Engine.

(** **** Constructing engines *)

(** X16. Called without [new] the constructor raises its TypeError
    whatever the arguments. A construction never touches the queues,
    the trace or the request counter; when it fails the world is
    unchanged; when it succeeds the new engine has a handle that was
    free, starts with no reference, and every other engine is as it
    was. *)
Theorem New_effect (history : list Action) (w w' : World) (c : bool)
  (args : list Value) (r : Completion nat) :
  perform_all history initial = Normal w ->
  New w c args = (w', r) ->
  work_queue w' = work_queue w /\ done_queue w' = done_queue w /\
  trace w' = trace w /\ next_request w' = next_request w /\
  (c = false ->
   r = Throw (TypeError
     "Cannot call constructor as function, you need to use 'new' keyword")) /\
  match r with
  | Normal h =>
      c = true /\ engines w !! h = None /\ is_Some (engines w' !! h) /\
      refs_of w' h = 0 /\ in_flight_on h w' = 0 /\
      forall e, e <> h -> engines w' !! e = engines w !! e
  | Throw _ => w' = w
  | Fault => False
  end.
Proof.
  intros Hreach HN. pose proof (reachable_consistent _ _ Hreach) as C.
  assert (Hfree : engines w !! next_engine w = None).
  { destruct (engines w !! next_engine w) eqn:He; [|reflexivity].
    assert (Hs : is_Some (engines w !! next_engine w)) by (rewrite He; eauto).
    apply (c_fresh _ C) in Hs. lia. }
  assert (Hcons : forall paths shared, construct paths shared w = (w', r) ->
    work_queue w' = work_queue w /\ done_queue w' = done_queue w /\
    trace w' = trace w /\ next_request w' = next_request w /\
    match r with
    | Normal h =>
        engines w !! h = None /\ is_Some (engines w' !! h) /\
        refs_of w' h = 0 /\ in_flight_on h w' = 0 /\
        forall e, e <> h -> engines w' !! e = engines w !! e
    | Throw _ => w' = w
    | Fault => False
    end).
  { intros paths shared. unfold construct.
    destruct (OSRM_ctor paths shared) as [osrm | what]; intros [= <- <-];
      [|repeat split].
    repeat split; try exact Hfree.
    - simpl. rewrite lookup_insert_eq. eauto.
    - unfold refs_of. simpl. now rewrite lookup_insert_eq.
    - unfold in_flight_on. rewrite jobs_Wrap. apply on_engine_absent.
      intros j Hin. apply (c_alive _ C) in Hin. rewrite Hfree in Hin.
      now destruct Hin.
    - intros e Hne. simpl. now rewrite lookup_insert_ne. }
  unfold New in HN. destruct c; cbn [negb] in HN.
  - assert (Hgoal : forall paths shared, construct paths shared w = (w', r) ->
      work_queue w' = work_queue w /\ done_queue w' = done_queue w /\
      trace w' = trace w /\ next_request w' = next_request w /\
      (true = false -> r = Throw (TypeError
         "Cannot call constructor as function, you need to use 'new' keyword")) /\
      match r with
      | Normal h =>
          true = true /\ engines w !! h = None /\ is_Some (engines w' !! h) /\
          refs_of w' h = 0 /\ in_flight_on h w' = 0 /\
          forall e, e <> h -> engines w' !! e = engines w !! e
      | Throw _ => w' = w
      | Fault => False
      end).
    { intros paths shared Hc. destruct (Hcons _ _ Hc) as (? & ? & ? & ? & Hr).
      repeat (split; [assumption || discriminate|]).
      destruct r; auto. }
    destruct (length args =? 1)%nat; [|eapply Hgoal; exact HN].
    destruct (IsString (arg args 0)); cbn [negb] in HN; [eapply Hgoal; exact HN|].
    injection HN as <- <-. repeat split; discriminate.
  - injection HN as <- <-. repeat split.
Qed.

(** **** One engine's jobs do not touch another engine *)

(** X17. A method call changes no engine but the one it is called on,
    and the after-work step of a job changes no engine but the job's. *)
Theorem engine_isolation (w w' : World) (e : nat) :
  (forall op this args r,
     method op w this args = (w', r) -> e <> this ->
     engines w' !! e = engines w !! e) /\
  (forall i closure,
     done_queue w !! i = Some closure -> run_after i w = Normal w' ->
     e <> machine closure -> engines w' !! e = engines w !! e).
Proof.
  split.
  - intros op this args r Hm Hne.
    apply method_world in Hm as [-> | [p HR]]; [reflexivity|].
    apply Run_Normal in HR as (fn & _ & _ & Hmv & _).
    rewrite (Hmv e). now rewrite decide_False.
  - intros i closure Hi Ha Hne.
    apply run_after_Normal in Ha as (b & Hb & _ & _ & Hmv & _).
    rewrite Hi in Hb. injection Hb as <-.
    rewrite (Hmv e). now rewrite decide_False.
Qed.

(** **** The worker step *)

(** X18. A worker step invokes no callback and touches no engine, no
    reference count and no counter; it moves one baton from the queued
    work to the finished work and leaves the request, engine,
    parameters and callback of every baton as they were. *)
Theorem worker_step_effect (i : nat) (w w' : World) :
  run_work i w = Normal w' ->
  trace w' = trace w /\ engines w' = engines w /\
  next_request w' = next_request w /\ next_engine w' = next_engine w /\
  tickets w' ≡ₚ tickets w /\
  S (length (work_queue w')) = length (work_queue w) /\
  length (done_queue w') = S (length (done_queue w)).
Proof.
  intros Hw. apply run_work_Normal in Hw
    as (b & b' & o & Hb & _ & Hj & Hcb & Hpa & _ & He & Hwq & Hdq & Ht & Hn & Hne).
  repeat (split; [assumption|]). split; [|split].
  - assert (Htk : ticket b' = ticket b).
    { unfold ticket. unfold job_of in Hj. congruence. }
    rewrite !tickets_queues, Hwq, Hdq, fmap_app. simpl. rewrite Htk.
    rewrite (tickets_delete _ _ _ Hb). solve_Permutation.
  - rewrite Hwq, length_delete by eauto.
    apply lookup_lt_Some in Hb. lia.
  - rewrite Hdq, length_app. simpl. lia.
Qed.

(** **** A callback that raises *)

(** X19. When the callback of a finished job raises, the exception is
    reported right after the invocation and the job is released all the
    same: its baton leaves the queue and the engine's [refs_] goes down
    by one. *)
Theorem raising_callback_still_released (history : list Action) (w : World)
  (i : nat) (closure : RunQueryBaton) :
  perform_all history initial = Normal w ->
  done_queue w !! i = Some closure ->
  callback_throws (cb closure) (callback_argv closure) = true ->
  exists w',
    run_after i w = Normal w' /\
    trace w' = trace w ++
      [Invoke (request closure) (cb closure) (callback_argv closure);
       FatalException (request closure)] /\
    done_queue w' = delete i (done_queue w) /\
    ~ pending (request closure) w' /\
    refs_of w' (machine closure) = refs_of w (machine closure) - 1.
Proof.
  intros Hreach Hi Hthrows. pose proof (reachable_consistent _ _ Hreach) as C.
  destruct (after_progress _ _ _ C Hi) as [w' Hw']. exists w'.
  split; [exact Hw'|].
  destruct (jobs_after _ _ _ Hw') as (b0 & Hb0 & Hperm).
  rewrite Hi in Hb0. injection Hb0 as <-.
  apply run_after_Normal in Hw' as (b & Hb & Halive & _ & Hmv & _ & Hdq & Ht & _).
  rewrite Hi in Hb. injection Hb as <-.
  rewrite Hthrows in Ht. repeat (split; [assumption|]). split.
  - pose proof (c_nodup _ C) as Hnd. rewrite Hperm in Hnd. simpl in Hnd.
    now apply NoDup_cons in Hnd as [Hfresh _].
  - rewrite (refs_moved_refs _ _ _ _ _ Hmv Halive).
    rewrite decide_True by reflexivity. lia.
Qed.

(** **** References are jobs in flight *)

Lemma perform_refs_are_jobs (a : Action) (w w' : World) :
  consistent w -> (forall e, refs_of w e = in_flight_on e w) ->
  perform a w = Normal w' -> forall e, refs_of w' e = in_flight_on e w'.
Proof.
  intros C Hall Hp e.
  pose proof (perform_consistent _ _ _ C Hp) as C'.
  destruct (engines w !! e) as [o|] eqn:He.
  - destruct (perform_idle a w w' e C Hp) as [Hidle _]; [rewrite He; eauto|].
    unfold idle in Hidle. specialize (Hall e). lia.
  - assert (Hnone : engines w' !! e = None -> refs_of w' e = in_flight_on e w').
    { intros He'. unfold refs_of. rewrite He'. symmetry. apply on_engine_absent.
      intros j Hin. apply (c_alive _ C') in Hin. rewrite He' in Hin.
      now destruct Hin. }
    destruct a as [i | i | c args | op this args]; simpl in Hp.
    + apply run_work_Normal in Hp as (b & b' & o' &_&_&_&_&_&_& Heq & _).
      apply Hnone. now rewrite Heq.
    + apply run_after_Normal in Hp as (b & _ & _ & _ & Hm & _).
      apply Hnone. rewrite (Hm e). destruct (decide (e = machine b)); now rewrite He.
    + injection Hp as <-. destruct (New_world w c args) as [Hw | [osrm Hw]];
        rewrite Hw in *.
      * now apply Hnone.
      * destruct (decide (next_engine w = e)) as [<- | Hne].
        -- unfold refs_of, in_flight_on. simpl. rewrite lookup_insert_eq. simpl.
           rewrite jobs_Wrap. specialize (Hall (next_engine w)).
           unfold refs_of in Hall. rewrite He in Hall. exact Hall.
        -- apply Hnone. simpl. now rewrite lookup_insert_ne.
    + destruct (method op w this args) as [w'' r] eqn:Hm.
      assert (w'' = w') as -> by (destruct r; congruence).
      apply method_world in Hm as [-> | [p HR]]; [now apply Hnone|].
      apply Run_Normal in HR as (fn & _ & _ & Hm & _).
      apply Hnone. rewrite (Hm e). destruct (decide (e = this)); now rewrite He.
Qed.

(** X20. In every world the binding can reach, the [refs_] of an
    engine is exactly the number of its jobs in flight: an engine is
    referenced while, and only while, work on it is queued or finished
    and not yet reported. With nothing in flight every [refs_] is 0. *)
Theorem refs_are_jobs_in_flight (history : list Action) (w : World) (e : nat) :
  perform_all history initial = Normal w ->
  refs_of w e = in_flight_on e w /\ (quiescent w -> refs_of w e = 0).
Proof.
  intros Hreach.
  assert (Hall : consistent w /\ forall e, refs_of w e = in_flight_on e w).
  { revert Hreach. generalize consistent_initial.
    assert (H0' : forall e, refs_of initial e = in_flight_on e initial).
    { intros e'. unfold refs_of, in_flight_on, on_engine. simpl.
      now rewrite lookup_empty. }
    revert H0'. generalize initial. induction history as [|a l IH]; simpl;
      intros w0 H0' C0 Hp.
    - injection Hp as <-. auto.
    - apply bind_Normal in Hp as (w1 & H1' & H2').
      apply (IH w1); [|eapply perform_consistent; eauto | exact H2'].
      now apply (perform_refs_are_jobs a w0). }
  destruct Hall as [_ Hall]. split; [apply Hall|].
  intros Hq. rewrite Hall. now apply quiescent_in_flight_on.
Qed.

(** **** Nothing is lost *)

Lemma completions_app (t1 t2 : list Event) :
  completions (t1 ++ t2) = (completions t1 + completions t2)%nat.
Proof.
  induction t1 as [|[j fn argv | j] t1 IH]; simpl; [reflexivity | | exact IH].
  now rewrite IH.
Qed.

Lemma perform_accounting (a : Action) (w w' : World) :
  perform a w = Normal w' ->
  next_request w = (length (in_flight w) + completions (trace w))%nat ->
  next_request w' = (length (in_flight w') + completions (trace w'))%nat.
Proof.
  unfold in_flight. rewrite !length_app.
  intros Hp Hacc. destruct a as [i | i | c args | op this args]; simpl in Hp.
  - apply run_work_Normal in Hp
      as (b & b' & o & Hb &_&_&_&_&_&_& Hwq & Hdq & Ht & Hn & _).
    rewrite Hn, Ht, Hwq, Hdq, length_app, length_delete by eauto.
    apply lookup_lt_Some in Hb. simpl. lia.
  - apply run_after_Normal in Hp as (b & Hb &_&_&_& Hwq & Hdq & Ht & Hn & _).
    rewrite Hn, Ht, Hwq, Hdq, length_delete, completions_app by eauto.
    apply lookup_lt_Some in Hb.
    destruct (callback_throws _ _); simpl; lia.
  - injection Hp as <-. destruct (New_world w c args) as [-> | [osrm ->]]; exact Hacc.
  - destruct (method op w this args) as [w'' r] eqn:Hm.
    assert (w'' = w') as -> by (destruct r; congruence).
    apply method_world in Hm as [-> | [p HR]]; [exact Hacc|].
    apply Run_Normal in HR as (fn &_&_&_& Hwq & Hdq & Ht & Hn & _).
    rewrite Hn, Ht, Hwq, Hdq, length_app. simpl. lia.
Qed.

(** X21. No request is lost or made up: in every world the binding
    can reach, the requests submitted so far are the batons in flight
    plus the callback invocations made; once nothing is in flight there
    have been exactly as many invocations as submissions. *)
Theorem requests_accounted_for (history : list Action) (w : World) :
  perform_all history initial = Normal w ->
  next_request w = (length (in_flight w) + completions (trace w))%nat /\
  (quiescent w -> completions (trace w) = next_request w).
Proof.
  intros Hreach.
  assert (Hacc : next_request w = (length (in_flight w) + completions (trace w))%nat).
  { revert Hreach.
    assert (H0' : next_request initial =
                  (length (in_flight initial) + completions (trace initial))%nat)
      by reflexivity.
    revert H0'. generalize initial. induction history as [|a l IH]; simpl;
      intros w0 H0' Hp.
    - now injection Hp as <-.
    - apply bind_Normal in Hp as (w1 & H1' & H2').
      apply (IH w1); [|exact H2']. now apply (perform_accounting a w0). }
  split; [exact Hacc|]. intros Hq. rewrite Hacc, Hq. reflexivity.
Qed.

(** **** The trace *)

Lemma perform_trace (a : Action) (w w' : World) :
  perform a w = Normal w' ->
  exists t, trace w' = trace w ++ t /\ Forall well_delivered t.
Proof.
  intros Hp. destruct a as [i | i | c args | op this args]; simpl in Hp.
  - apply run_work_Normal in Hp as (b & b' & o &_&_&_&_&_&_&_&_&_& Ht & _).
    exists []. rewrite Ht, app_nil_r. split; [reflexivity | constructor].
  - apply run_after_Normal in Hp as (b &_&_&_&_&_&_& Ht & _).
    eexists. split; [exact Ht|]. constructor.
    + simpl. unfold delivery, callback_argv. destruct (error b); eauto.
    + destruct (callback_throws _ _); repeat constructor.
  - injection Hp as <-. exists []. rewrite app_nil_r.
    destruct (New_world w c args) as [-> | [osrm ->]]; split; constructor.
  - destruct (method op w this args) as [w'' r] eqn:Hm.
    assert (w'' = w') as -> by (destruct r; congruence).
    exists []. rewrite app_nil_r. split; [|constructor].
    apply method_world in Hm as [-> | [p HR]]; [reflexivity|].
    now apply Run_Normal in HR as (fn &_&_&_&_&_& Ht & _).
Qed.

(** X23. Every callback invocation the binding ever makes has one of
    two shapes: a single argument that is an error, or two arguments,
    [null] and a string. *)
Theorem every_invocation_well_formed (history : list Action) (w : World) :
  perform_all history initial = Normal w ->
  forall job fn argv, Invoke job fn argv ∈ trace w -> delivery argv.
Proof.
  intros Hreach.
  assert (Hall : Forall well_delivered (trace w)).
  { revert Hreach.
    assert (H0' : Forall well_delivered (trace initial)) by constructor.
    revert H0'. generalize initial. induction history as [|a l IH]; simpl;
      intros w0 H0' Hp.
    - now injection Hp as <-.
    - apply bind_Normal in Hp as (w1 & H1' & H2').
      apply (IH w1); [|exact H2'].
      apply perform_trace in H1' as (t & -> & Ht). apply Forall_app. auto. }
  intros job fn argv Hin. rewrite Forall_forall in Hall.
  exact (Hall _ Hin).
Qed.

End Loop.

(* ===================================================================== *)
(** ** Worked examples on the concrete runtime and library               *)
(* ===================================================================== *)

Module Examples.

Import V8 Engine Sample.

#[local] Existing Instance runtime.
#[local] Existing Instance library.
#[local] Existing Instance platform.

Example submitted_world :
  method route one_engine 0 [two_points; callback] = (submitted, Normal ()) /\
  refs_of submitted 0 = 1 /\ length (work_queue submitted) = 1%nat.
Proof. repeat split. Qed.

Example run_to_completion :
  match run_loop 2 submitted with
  | Normal w => trace w = [Invoke 0 7 [VNull; VString "{}"]] /\ refs_of w 0 = 0
  | _ => False
  end.
Proof. vm_compute. split; reflexivity. Qed.


(** *** The life cycle on a concrete run *)

Lemma job_completes_exactly_once_witness :
  perform_all [Construct true []] initial = Normal one_engine /\
  method route one_engine 0 [two_points; callback] = (submitted, Normal ()) /\
  (refs_of submitted 0 = refs_of one_engine 0 + 1 /\ pending 0 submitted) /\
  exists w3, run_loop 2 submitted = Normal w3 /\ quiescent w3 /\
             invocations 0 (trace w3) = 1%nat /\ refs_of w3 0 = 0.
Proof.
  pose proof (job_completes_exactly_once [Construct true []] route one_engine
                submitted 0 [two_points; callback] eq_refl eq_refl)
    as [(Hr & _ & Hp & _) Hf].
  destruct (Hf [] submitted eq_refl) as (_ & _ & _ & _ & _ & w3 & Hl & Hq & Hi & Hrf).
  split; [reflexivity|]. split; [reflexivity|]. split; [split; assumption|].
  exists w3. repeat split; assumption.
Defined.

Lemma completion_callback_contract_witness :
  perform_all [Construct true []] initial = Normal one_engine /\
  method locate one_engine 0 [pair 1 2; callback] = (locate_submitted, Normal ()) /\
  perform_all [Work 0] locate_submitted = Normal after_locate /\
  done_queue after_locate !! 0%nat = Some locate_baton /\
  request locate_baton = next_request one_engine /\
  exists w', run_after 0 after_locate = Normal w' /\
             trace w' = [Invoke 0 7 [VError "no such service"]].
Proof.
  assert (Hwork : perform_all [Work 0] locate_submitted = Normal after_locate)
    by (vm_compute; reflexivity).
  split; [reflexivity|]. split; [reflexivity|]. split; [exact Hwork|].
  split; [reflexivity|]. split; [reflexivity|].
  destruct (completion_callback_contract [Construct true []] locate one_engine
              locate_submitted 0 [pair 1 2; callback] [Work 0] after_locate
              0 locate_baton eq_refl eq_refl Hwork eq_refl eq_refl)
    as (p & fn & osrm & w' & argv & Hb & Hfn & _ & Hrun & Ht & Hq).
  injection Hb as <-. injection Hfn as <-.
  exists w'. split; [exact Hrun|].
  destruct Hq as [-> _]. exact Ht.
Defined.

(** *** Validation on concrete requests *)


Lemma number_not_acceptable : ~ acceptable_hint (number 1).
Proof. intros [Hs | Hn]; discriminate. Defined.

Lemma hints_checked_by_route_only_witness :
  [callback] <> [] /\
  route_coordinates (VObject bad_hints_props) (route_defaults new_RouteParameters) =
    Normal two_points_parameters /\
  lookup_prop "hints" bad_hints_props = Some (VArray [number 1; VString "abc"]) /\
  Exists (fun h => ~ acceptable_hint h) [number 1; VString "abc"] /\
  method route one_engine 0 [VObject bad_hints_props; callback] =
    (one_engine, Throw (Error "hint must be null or string")).
Proof.
  assert (Hrest : [callback] <> []) by discriminate.
  assert (Hbad : Exists (fun h => ~ acceptable_hint h) [number 1; VString "abc"])
    by (apply Exists_cons_hd, number_not_acceptable).
  split; [exact Hrest|]. split; [reflexivity|]. split; [reflexivity|].
  split; [exact Hbad|].
  exact (proj1 (hints_checked_by_route_only one_engine 0 bad_hints_props [callback]
                  two_points_parameters [number 1; VString "abc"]
                  Hrest eq_refl eq_refl Hbad)).
Defined.


Lemma callback_required_witness :
  IsFunction (arg [two_points; VString "cb"] (length [two_points; VString "cb"] - 1))
    = false /\
  method route one_engine 0 [two_points; VString "cb"] =
    (one_engine, Throw (TypeError "last argument must be a callback function")).
Proof.
  split; [reflexivity|].
  destruct (callback_required route one_engine 0 [two_points; VString "cb"] eq_refl)
    as (_ & _ & _ & Hvalid).
  exact (Hvalid two_points_parameters eq_refl).
Defined.



Lemma three_hints_acceptable :
  Forall acceptable_hint [VString "a"; VNull; VString "b"].
Proof.
  repeat constructor; (left; reflexivity) || (right; reflexivity).
Defined.

Lemma hints_of_any_length_witness :
  (2 <= length [VObject three_hints_props; callback])%nat /\
  arg [VObject three_hints_props; callback] 0 = VObject three_hints_props /\
  route_coordinates (VObject three_hints_props) (route_defaults new_RouteParameters) =
    Normal two_points_parameters /\
  lookup_prop "hints" three_hints_props =
    Some (VArray [VString "a"; VNull; VString "b"]) /\
  Forall acceptable_hint [VString "a"; VNull; VString "b"] /\
  exists p, route_parameters [VObject three_hints_props; callback] = Normal p /\
            hints p = ["a"; ""; "b"] /\ length (coordinates p) = 2%nat.
Proof.
  assert (Hlen : (2 <= length [VObject three_hints_props; callback])%nat)
    by (simpl; lia).
  assert (Hc0 : route_coordinates (VObject three_hints_props)
                  (route_defaults new_RouteParameters) =
                Normal two_points_parameters) by reflexivity.
  split; [exact Hlen|]. split; [reflexivity|]. split; [exact Hc0|].
  split; [reflexivity|]. split; [exact three_hints_acceptable|].
  destruct (hints_of_any_length [VObject three_hints_props; callback]
              three_hints_props two_points_parameters
              [VString "a"; VNull; VString "b"]
              Hlen eq_refl Hc0 eq_refl three_hints_acceptable)
    as (p & Hp & Hh & _ & Hc).
  exists p. split; [exact Hp|]. split; [exact Hh|]. now rewrite Hc.
Defined.

(** *** Where the code does something else *)

(** [table] with a number among the hints: the job is submitted. *)
Lemma table_ignores_hints :
  method table one_engine 0 [bad_hints; callback] <>
    (one_engine, Throw (Error "hint must be null or string")) /\
  (method table one_engine 0 [bad_hints; callback]).2 = Normal () /\
  length (work_queue (method table one_engine 0 [bad_hints; callback]).1) = 1%nat.
Proof. split; [discriminate | split; reflexivity]. Qed.


(** [new OSRM(1, 2)]: no exception, an engine is constructed. *)
Lemma constructor_two_arguments :
  New initial true [number 1; number 2] <>
    (initial, Throw (Error "OSRM base path must be a string")) /\
  (New initial true [number 1; number 2]).2 = Normal 0%nat.
Proof. split; [discriminate | reflexivity]. Qed.

(** [route(two_points)] with no callback: another message. *)
Lemma missing_callback_message :
  IsFunction (arg [two_points] (length [two_points] - 1)) = false /\
  method route one_engine 0 [two_points] =
    (one_engine, Throw (TypeError "two arguments required")) /\
  method route one_engine 0 [two_points] <>
    (one_engine, Throw (TypeError "last argument must be a callback function")).
Proof. split; [reflexivity|]. split; [reflexivity | discriminate]. Qed.


End Examples.

(* ===================================================================== *)
(** ** Worked instances of the further properties                        *)
(* ===================================================================== *)

Module Instances.

Import V8 Engine Sample.

#[local] Existing Instance runtime.
#[local] Existing Instance library.
#[local] Existing Instance platform.

(** *** The methods *)

Lemma point_argument_checked_witness :
  (nearest = locate \/ nearest = nearest) /\
  (2 <= length [VArray [number 1]; callback])%nat /\
  (IsArray (arg [VArray [number 1]; callback] 0) = false \/
   Length (arg [VArray [number 1]; callback] 0) <> 2%nat) /\
  method nearest one_engine 0 [VArray [number 1]; callback] =
    (one_engine, Throw (Error "first argument must be an array of lat, long")).
Proof.
  assert (Hop : nearest = locate \/ nearest = nearest) by (right; reflexivity).
  assert (Hlen : (2 <= length [VArray [number 1]; callback])%nat) by (simpl; lia).
  assert (Hbad : IsArray (arg [VArray [number 1]; callback] 0) = false \/
                 Length (arg [VArray [number 1]; callback] 0) <> 2%nat)
    by (right; simpl; lia).
  repeat (split; [assumption|]).
  exact (point_argument_checked nearest one_engine 0 [VArray [number 1]; callback]
           Hop Hlen Hbad).
Defined.

Lemma point_parameters_shape_witness :
  build locate [pair 1 2; callback] = Normal (params locate_baton) /\
  coordinates (params locate_baton) = [(1000000, 2000000)] /\
  nearest_parameters [pair 1 2; callback] =
    Normal (set_service "nearest" (params locate_baton)).
Proof.
  assert (Hb : build locate [pair 1 2; callback] = Normal (params locate_baton))
    by reflexivity.
  split; [exact Hb|]. split; [reflexivity|].
  exact (proj2 (proj2 (proj2 (proj2 (proj2 (proj2 (proj2 (proj2 (proj2
    (proj2 (proj2 (proj2 (proj2
      (point_parameters_shape locate [pair 1 2; callback] (params locate_baton)
         (or_introl eq_refl) Hb)))))))))))))).
Defined.

Lemma route_fixed_fields_witness :
  route_parameters [with_options; callback] = Normal with_options_parameters /\
  service with_options_parameters = "viaroute" /\
  output_format with_options_parameters = "json".
Proof.
  assert (Hp : route_parameters [with_options; callback] =
               Normal with_options_parameters) by reflexivity.
  split; [exact Hp|].
  destruct (route_fixed_fields [with_options; callback] with_options_parameters Hp)
    as (Hs & Ho & _).
  split; assumption.
Defined.

Lemma table_parameters_shape_witness :
  table_parameters [bad_hints; callback] = Normal table_points_parameters /\
  service table_points_parameters = "table" /\ hints table_points_parameters = [].
Proof.
  assert (Hp : table_parameters [bad_hints; callback] =
               Normal table_points_parameters) by reflexivity.
  split; [exact Hp|].
  destruct (table_parameters_shape [bad_hints; callback] table_points_parameters Hp)
    as (Hs & Hh & _).
  split; assumption.
Defined.


Lemma table_first_argument_witness :
  (2 <= length [number 1; callback])%nat /\
  IsObject (arg [number 1; callback] 0) = false /\
  method table one_engine 0 [number 1; callback] =
    (one_engine, Throw (Error "coordinates must be an array of (lat/long) pairs")) /\
  method route one_engine 0 [number 1; callback] =
    (one_engine, Throw (TypeError "two arguments required")).
Proof.
  assert (Hlen : (2 <= length [number 1; callback])%nat) by (simpl; lia).
  assert (Hobj : IsObject (arg [number 1; callback] 0) = false) by reflexivity.
  assert (Hnull : IsNull (arg [number 1; callback] 0) ||
                  IsUndefined (arg [number 1; callback] 0) = false) by reflexivity.
  split; [exact Hlen|]. split; [exact Hobj|].
  exact (table_first_argument one_engine 0 [number 1; callback] Hlen Hobj Hnull).
Defined.

Lemma table_null_argument_witness :
  (2 <= length [VNull; callback])%nat /\
  IsNull (arg [VNull; callback] 0) || IsUndefined (arg [VNull; callback] 0) = true /\
  method table one_engine 0 [VNull; callback] = (one_engine, Fault).
Proof.
  assert (Hlen : (2 <= length [VNull; callback])%nat) by (simpl; lia).
  assert (Hnull : IsNull (arg [VNull; callback] 0) ||
                  IsUndefined (arg [VNull; callback] 0) = true) by reflexivity.
  split; [exact Hlen|]. split; [exact Hnull|].
  exact (table_null_argument one_engine 0 [VNull; callback] Hlen Hnull).
Defined.


Lemma hints_must_be_array_witness :
  (2 <= length [VObject null_hints_props; callback])%nat /\
  route_coordinates (VObject null_hints_props) (route_defaults new_RouteParameters) =
    Normal two_points_parameters /\
  lookup_prop "hints" null_hints_props = Some VNull /\
  IsArray VNull = false /\
  method route one_engine 0 [VObject null_hints_props; callback] =
    (one_engine, Throw (Error "hints must be an array of strings/null")).
Proof.
  assert (Hlen : (2 <= length [VObject null_hints_props; callback])%nat)
    by (simpl; lia).
  assert (Hc : route_coordinates (VObject null_hints_props)
                 (route_defaults new_RouteParameters) =
               Normal two_points_parameters) by reflexivity.
  assert (Hh : lookup_prop "hints" null_hints_props = Some VNull) by reflexivity.
  assert (Ha : IsArray VNull = false) by reflexivity.
  assert (H0 : arg [VObject null_hints_props; callback] 0 = VObject null_hints_props)
    by reflexivity.
  repeat (split; [assumption|]).
  exact (hints_must_be_array one_engine 0 [VObject null_hints_props; callback]
           null_hints_props two_points_parameters VNull Hlen H0 Hc Hh Ha).
Defined.

Lemma empty_alternate_route :
  present_but_empty (arg [empty_options; callback] 0) "alternateRoute".
Proof. split; reflexivity. Defined.

Lemma empty_zoom_level :
  present_but_empty (arg [empty_options; callback] 0) "zoomLevel".
Proof. split; reflexivity. Defined.

Lemma undefined_option_overrides_default_witness :
  route_parameters [empty_options; callback] = Normal empty_options_parameters /\
  present_but_empty (arg [empty_options; callback] 0) "alternateRoute" /\
  present_but_empty (arg [empty_options; callback] 0) "zoomLevel" /\
  alternate_route empty_options_parameters = false /\
  zoom_level empty_options_parameters = 0.
Proof.
  assert (Hp : route_parameters [empty_options; callback] =
               Normal empty_options_parameters) by reflexivity.
  split; [exact Hp|]. split; [exact empty_alternate_route|].
  split; [exact empty_zoom_level|].
  destruct (undefined_option_overrides_default [empty_options; callback]
              empty_options_parameters Hp) as (Ha & Hz & _).
  split; [exact (Ha empty_alternate_route) | exact (Hz empty_zoom_level)].
Defined.

Lemma stored_strings_are_text_witness :
  route_parameters [nul_strings; callback] = Normal nul_strings_parameters /\
  Forall (fun h => textual h = true) (hints nul_strings_parameters) /\
  textual (jsonp_parameter nul_strings_parameters) = true.
Proof.
  assert (Hp : route_parameters [nul_strings; callback] =
               Normal nul_strings_parameters) by reflexivity.
  split; [exact Hp|].
  exact (stored_strings_are_text [nul_strings; callback] nul_strings_parameters Hp).
Defined.

(** *** The conversion *)

Lemma stored_within_one_unit_witness :
  scaled (VNumber minus_1_23456789) = -1234567 /\
  Double.INT_MIN <= scaled (VNumber minus_1_23456789) <= Double.INT_MAX.
Proof.
  split; [reflexivity|].
  exact (proj1 (stored_within_one_unit (VNumber minus_1_23456789))).
Defined.

Lemma scaling_is_odd_witness :
  scale (VNumber minus_1_23456789) = Some (-1234567) /\
  scale (VNumber (SFopp minus_1_23456789)) = Some 1234567 /\
  scaled (VNumber (SFopp minus_1_23456789)) = 1234567.
Proof.
  assert (Hs : scale (VNumber minus_1_23456789) = Some (-1234567)) by reflexivity.
  split; [exact Hs|].
  destruct (scaling_is_odd minus_1_23456789 (-1234567) Hs) as (Ho & _ & Hn).
  split; [exact Ho | exact (Hn eq_refl)].
Defined.

(** *** Engines, workers and the loop *)

Lemma New_effect_witness :
  perform_all [] initial = Normal initial /\
  New initial true [] = (one_engine, Normal 0%nat) /\
  engines initial !! 0%nat = None /\ is_Some (engines one_engine !! 0%nat) /\
  refs_of one_engine 0 = 0.
Proof.
  assert (H0 : perform_all [] initial = Normal initial) by reflexivity.
  assert (HN : New initial true [] = (one_engine, Normal 0%nat)) by reflexivity.
  split; [exact H0|]. split; [exact HN|].
  destruct (New_effect [] initial one_engine true [] (Normal 0%nat) H0 HN)
    as (_ & _ & _ & _ & _ & _ & Hfree & Hnew & Hrefs & _).
  repeat split; assumption.
Defined.

Lemma worker_step_effect_witness :
  run_work 0 submitted = Normal worked /\
  trace worked = trace submitted /\
  length (done_queue worked) = S (length (done_queue submitted)).
Proof.
  assert (Hw : run_work 0 submitted = Normal worked) by (vm_compute; reflexivity).
  split; [exact Hw|].
  destruct (worker_step_effect 0 submitted worked Hw) as (Ht & _ & _ & _ & _ & _ & Hd).
  split; assumption.
Defined.

Lemma raising_callback_still_released_witness :
  @perform_all raising library platform (routed ++ [Work 0]) initial = Normal worked /\
  done_queue worked !! 0%nat = Some route_baton /\
  @callback_throws raising (cb route_baton) (callback_argv route_baton) = true /\
  exists w', @run_after raising library 0 worked = Normal w' /\
             trace w' = [Invoke 0 7 [VNull; VString "{}"]; FatalException 0] /\
             refs_of w' 0 = refs_of worked 0 - 1.
Proof.
  assert (Hh : @perform_all raising library platform (routed ++ [Work 0]) initial =
               Normal worked) by (vm_compute; reflexivity).
  assert (Hd : done_queue worked !! 0%nat = Some route_baton)
    by (vm_compute; reflexivity).
  assert (Ht : @callback_throws raising (cb route_baton) (callback_argv route_baton) =
               true) by reflexivity.
  split; [exact Hh|]. split; [exact Hd|]. split; [exact Ht|].
  destruct (@raising_callback_still_released raising library platform (routed ++ [Work 0])
              worked 0%nat route_baton Hh Hd Ht)
    as (w' & Hrun & Htr & _ & _ & Hrefs).
  exists w'. split; [exact Hrun|]. split; [exact Htr | exact Hrefs].
Defined.

Lemma refs_are_jobs_in_flight_witness :
  perform_all routed initial = Normal submitted /\
  refs_of submitted 0 = in_flight_on 0 submitted.
Proof.
  assert (Hh : perform_all routed initial = Normal submitted)
    by (vm_compute; reflexivity).
  split; [exact Hh|].
  exact (proj1 (refs_are_jobs_in_flight routed submitted 0%nat Hh)).
Defined.

Lemma requests_accounted_for_witness :
  perform_all routed initial = Normal submitted /\
  next_request submitted =
    (length (in_flight submitted) + completions (trace submitted))%nat.
Proof.
  assert (Hh : perform_all routed initial = Normal submitted)
    by (vm_compute; reflexivity).
  split; [exact Hh|].
  exact (proj1 (requests_accounted_for routed submitted Hh)).
Defined.

Lemma every_invocation_well_formed_witness :
  perform_all (routed ++ [Work 0; After 0]) initial = Normal reported /\
  Invoke 0 7 [VNull; VString "{}"] ∈ trace reported /\
  delivery [VNull; VString "{}"].
Proof.
  assert (Hh : perform_all (routed ++ [Work 0; After 0]) initial = Normal reported)
    by (vm_compute; reflexivity).
  assert (Hin : Invoke 0 7 [VNull; VString "{}"] ∈ trace reported)
    by (vm_compute; apply list_elem_of_here).
  split; [exact Hh|]. split; [exact Hin|].
  exact (every_invocation_well_formed (routed ++ [Work 0; After 0]) reported Hh
           0%nat 7%nat [VNull; VString "{}"] Hin).
Defined.

End Instances.
